(** * Offline frame renderer: timeline, media synchronizer, compositor, render loop

    A shallow embedding of [startRecording] and its helpers ([seekVideo],
    [drawPanel], [getBounce], [totalDuration]) from the application
    component, together with the properties the design document states
    about them.

    Numbers.  The program computes with JavaScript numbers.  They are
    modelled as exact rationals extended with [+Infinity], [-Infinity] and
    [NaN]: every arithmetic operation follows the IEEE-754 rules for the
    special values (division by zero, [NaN] propagation, comparisons with
    [NaN] being false), while rounding, overflow and the sign of zero are
    not modelled.  Configuration values (durations, trim points, pixel
    sizes) are finite, hence rationals. *)

From Stdlib Require Import QArith Qround Qabs Qminmax Lqa.
From Stdlib Require Import ZArith Lia List Bool Ascii String.
Import ListNotations.

Set Implicit Arguments.

(** ** JavaScript numbers *)

Module JS.

Inductive num : Type :=
| Fin (q : Q)
| PInf
| NInf
| NaN.

Definition Qlt_bool (x y : Q) : bool := negb (Qle_bool y x).

(** Same-value equality: rationals are compared up to [==]. *)
Definition num_eq (a b : num) : Prop :=
  match a, b with
  | Fin x, Fin y => x == y
  | PInf, PInf => True
  | NInf, NInf => True
  | NaN, NaN => True
  | _, _ => False
  end.

Definition isNaN (a : num) : bool :=
  match a with NaN => true | _ => false end.

Definition isFinite (a : num) : bool :=
  match a with Fin _ => true | _ => false end.

(** [a === Infinity] *)
Definition isPosInfinity (a : num) : bool :=
  match a with PInf => true | _ => false end.

(** Truthiness of a number: [0] and [NaN] are falsy. *)
Definition truthy (a : num) : bool :=
  match a with
  | Fin q => negb (Qeq_bool q 0)
  | NaN => false
  | _ => true
  end.

Definition neg (a : num) : num :=
  match a with
  | Fin q => Fin (- q)
  | PInf => NInf
  | NInf => PInf
  | NaN => NaN
  end.

Definition add (a b : num) : num :=
  match a, b with
  | NaN, _ | _, NaN => NaN
  | Fin x, Fin y => Fin (x + y)
  | PInf, NInf | NInf, PInf => NaN
  | PInf, _ | _, PInf => PInf
  | NInf, _ | _, NInf => NInf
  end.

Definition sub (a b : num) : num := add a (neg b).

(** Sign of a rational as seen by multiplication and division. *)
Definition signed_inf (positive : bool) : num :=
  if positive then PInf else NInf.

Definition mul (a b : num) : num :=
  match a, b with
  | NaN, _ | _, NaN => NaN
  | Fin x, Fin y => Fin (x * y)
  | Fin x, PInf | PInf, Fin x =>
      if Qeq_bool x 0 then NaN else signed_inf (Qlt_bool 0 x)
  | Fin x, NInf | NInf, Fin x =>
      if Qeq_bool x 0 then NaN else signed_inf (Qlt_bool x 0)
  | PInf, PInf | NInf, NInf => PInf
  | PInf, NInf | NInf, PInf => NInf
  end.

Definition div (a b : num) : num :=
  match a, b with
  | NaN, _ | _, NaN => NaN
  | Fin x, Fin y =>
      if Qeq_bool y 0
      then (if Qeq_bool x 0 then NaN else signed_inf (Qlt_bool 0 x))
      else Fin (x / y)
  | Fin _, PInf | Fin _, NInf => Fin 0
  | PInf, Fin y => signed_inf (Qle_bool 0 y)
  | NInf, Fin y => signed_inf (Qlt_bool y 0)
  | _, _ => NaN
  end.

(** Rounding towards zero. *)
Definition Qtrunc (q : Q) : Z :=
  if Qle_bool 0 q then Qfloor q else Qceiling q.

(** The remainder of truncated division; it has the sign of the
    dividend. *)
Definition Qrem (x y : Q) : Q := x - y * inject_Z (Qtrunc (x / y)).

(** The [%] operator. *)
Definition rem (a b : num) : num :=
  match a, b with
  | Fin x, Fin y => if Qeq_bool y 0 then NaN else Fin (Qrem x y)
  | Fin x, PInf | Fin x, NInf => Fin x
  | _, _ => NaN
  end.

Definition lt (a b : num) : bool :=
  match a, b with
  | NaN, _ | _, NaN => false
  | Fin x, Fin y => Qlt_bool x y
  | NInf, NInf | PInf, _ => false
  | NInf, _ | _, PInf => true
  | Fin _, NInf => false
  end.

Definition le (a b : num) : bool :=
  match a, b with
  | NaN, _ | _, NaN => false
  | Fin x, Fin y => Qle_bool x y
  | NInf, _ | _, PInf => true
  | PInf, _ | Fin _, NInf => false
  end.

Definition gt (a b : num) : bool := lt b a.
Definition ge (a b : num) : bool := le b a.

Definition Math_min (a b : num) : num :=
  match a, b with
  | NaN, _ | _, NaN => NaN
  | _, _ => if le a b then a else b
  end.

Definition Math_max (a b : num) : num :=
  match a, b with
  | NaN, _ | _, NaN => NaN
  | _, _ => if le a b then b else a
  end.

Definition Math_abs (a : num) : num :=
  match a with
  | Fin q => Fin (Qabs q)
  | PInf | NInf => PInf
  | NaN => NaN
  end.

Definition Math_ceil (a : num) : num :=
  match a with
  | Fin q => Fin (inject_Z (Qceiling q))
  | _ => a
  end.

(** [Math.pow] at a natural exponent. *)
Definition Math_pow (a : num) (n : nat) : num :=
  match n with
  | O => Fin 1
  | S _ =>
      match a with
      | Fin q => Fin (q ^ Z.of_nat n)
      | PInf => PInf
      | NInf => if Nat.even n then PInf else NInf
      | NaN => NaN
      end
  end.

End JS.

Export JS.

Coercion Fin : Q >-> num.

Declare Scope num_scope.
Delimit Scope num_scope with num.
Bind Scope num_scope with num.
Infix "+" := add : num_scope.
Infix "-" := sub : num_scope.
Infix "*" := mul : num_scope.
Infix "/" := div : num_scope.
Infix "mod" := rem : num_scope.
Infix "<?" := lt : num_scope.
Infix "<=?" := le : num_scope.
Infix ">?" := gt : num_scope.
Infix ">=?" := ge : num_scope.
Infix "=n=" := num_eq (at level 70, no associativity).

Open Scope Q_scope.

(** ** Data model (types.ts) *)

Inductive MediaType := image | video.

Record TimingConfig := {
  t1 : Q;      (* Intro Duration *)
  t2 : Q;      (* Fade to Black *)
  t3 : Q;      (* Entry Duration *)
  t4 : Q;      (* Bounce Duration *)
  tHold : Q;   (* Hold Before Overlay *)
  t5 : Q;      (* Overlay Fade *)
  t6 : Q;      (* Static / Outro *)
  t7 : Q       (* Final Fade Out *)
}.

(** The fields of a slot that the renderer reads.  [endTime] and [loop]
    may be absent ([undefined]). *)
Record MediaSlotData := {
  url : option string;
  type : MediaType;
  xOffset : Q;
  startTime : Q;
  endTime : option Q;
  loop : option bool
}.

Inductive Align := left | center | right.

Record TypographyConfig := {
  content : string;
  fontSize : Q;
  color : string;
  align : Align;
  fontFamily : string
}.

Inductive FadeColor := black | white.

Record AnimationConfig := {
  bounceScale : Q;
  fadeColor : FadeColor
}.

Inductive Quality := standard | high.

Record Slots := {
  a : MediaSlotData;
  b : MediaSlotData;
  c : MediaSlotData;
  d : MediaSlotData
}.

Record AppState := {
  slots : Slots;
  timing : TimingConfig;
  typography : TypographyConfig;
  animation : AnimationConfig;
  quality : Quality
}.

(** [Object.values(state.timing)], in declaration order. *)
Definition Object_values (tm : TimingConfig) : list Q :=
  [t1 tm; t2 tm; t3 tm; t4 tm; tHold tm; t5 tm; t6 tm; t7 tm].

Definition totalDuration (tm : TimingConfig) : Q :=
  fold_left (fun acc val => acc + val) (Object_values tm) 0.

(** ** Media elements *)

Record HTMLImageElement := {
  width : Q;
  height : Q
}.

Record HTMLVideoElement := {
  duration : num;
  currentTime : num;
  videoWidth : Q;
  videoHeight : Q;
  paused : bool;
  src : string;
  attached : bool
}.

Inductive Media :=
| Img (i : HTMLImageElement)
| Vid (v : HTMLVideoElement).

Definition set_currentTime (v : HTMLVideoElement) (x : num) : HTMLVideoElement :=
  {| duration := duration v; currentTime := x;
     videoWidth := videoWidth v; videoHeight := videoHeight v;
     paused := paused v; src := src v; attached := attached v |}.

(** ** Media synchronizer ([seekVideo]) *)

Open Scope num_scope.

(** [endTime || video.duration], then the fallback for an unknown
    duration. *)
Definition effectiveEndTime (video_duration startTime : num)
    (endTime : option num) : num :=
  let e := match endTime with
           | Some e => if truthy e then e else video_duration
           | None => video_duration
           end in
  if isPosInfinity e || isNaN e then startTime + Fin 60 else e.

(** [loop !== false] *)
Definition loops (loop : option bool) : bool :=
  match loop with
  | Some false => false
  | _ => true
  end.

Definition targetTime (video_duration startTime : num) (endTime : option num)
    (loop : option bool) (elapsed : num) : num :=
  let effectiveEndTime := effectiveEndTime video_duration startTime endTime in
  let segmentDuration := effectiveEndTime - startTime in
  if segmentDuration >? Fin 0 then
    if loops loop then startTime + (elapsed mod segmentDuration)
    else Math_min (startTime + elapsed) effectiveEndTime
  else startTime.

(** How the promise returned by [seekVideo] settles. *)
Inductive SeekOutcome :=
| ResolvedAtOnce      (* already within tolerance: no seek issued *)
| ResolvedOnSeeked.   (* [currentTime] assigned, resolved by the event *)

Definition seekVideo (video : HTMLVideoElement) (startTime : num)
    (endTime : option num) (loop : option bool) (elapsed : num)
    : HTMLVideoElement * SeekOutcome :=
  let targetTime := targetTime (duration video) startTime endTime loop elapsed in
  if Math_abs (currentTime video - targetTime) <? Fin (1 # 100)
  then (video, ResolvedAtOnce)
  else (set_currentTime video targetTime, ResolvedOnSeeked).


Close Scope num_scope.

(** ** The 2D canvas

    The compositor is a sequence of calls on a 2D context.  The calls are
    recorded as commands; [exec] gives them the context's meaning:
    drawing state ([fillStyle], [globalAlpha], text settings, clipping
    region), the [save]/[restore] stack, and the list of painted
    primitives, each with the drawing state in force when it was painted. *)

Inductive SlotId := SlotA | SlotB | SlotC | SlotD.

Inductive Style :=
| Hex (s : string)
| Rgba (r g b : Q) (alpha : num).

Record Rect := { rx : num; ry : num; rw : num; rh : num }.

Inductive Cmd :=
| SetFillStyle (s : Style)
| SetGlobalAlpha (x : num)
| SetFont (px : num) (family : string)      (* bold, size in px *)
| SetTextAlign (al : Align)
| SetTextBaselineMiddle
| Save
| Restore
| BeginPath
| PathRect (x y w h : num)
| Clip
| FillRect (x y w h : num)
| DrawImage (media : SlotId) (x y w h : num)
| FillText (line : string) (x y : num).

Record DrawingState := {
  fillStyle : Style;
  globalAlpha : num;
  font : num * string;
  textAlign : Align;
  clipRegion : list Rect       (* intersection of the listed rectangles *)
}.

Inductive Painted :=
| PaintedRect (ds : DrawingState) (r : Rect)
| PaintedImage (ds : DrawingState) (media : SlotId) (r : Rect)
| PaintedText (ds : DrawingState) (line : string) (x y : num).

Record Context2D := {
  state : DrawingState;
  path : list Rect;
  stack : list DrawingState;
  painted : list Painted       (* oldest first *)
}.

Definition with_state (ctx : Context2D) (ds : DrawingState) : Context2D :=
  {| state := ds; path := path ctx; stack := stack ctx; painted := painted ctx |}.

Definition paint (ctx : Context2D) (p : Painted) : Context2D :=
  {| state := state ctx; path := path ctx; stack := stack ctx;
     painted := painted ctx ++ [p] |}.

Definition exec1 (ctx : Context2D) (cmd : Cmd) : Context2D :=
  let ds := state ctx in
  match cmd with
  | SetFillStyle s =>
      with_state ctx {| fillStyle := s; globalAlpha := globalAlpha ds;
                        font := font ds; textAlign := textAlign ds;
                        clipRegion := clipRegion ds |}
  | SetGlobalAlpha x =>
      with_state ctx {| fillStyle := fillStyle ds; globalAlpha := x;
                        font := font ds; textAlign := textAlign ds;
                        clipRegion := clipRegion ds |}
  | SetFont px family =>
      with_state ctx {| fillStyle := fillStyle ds; globalAlpha := globalAlpha ds;
                        font := (px, family); textAlign := textAlign ds;
                        clipRegion := clipRegion ds |}
  | SetTextAlign al =>
      with_state ctx {| fillStyle := fillStyle ds; globalAlpha := globalAlpha ds;
                        font := font ds; textAlign := al;
                        clipRegion := clipRegion ds |}
  | SetTextBaselineMiddle => ctx
  | Save =>
      {| state := ds; path := path ctx; stack := ds :: stack ctx;
         painted := painted ctx |}
  | Restore =>
      match stack ctx with
      | [] => ctx
      | saved :: rest =>
          {| state := saved; path := path ctx; stack := rest;
             painted := painted ctx |}
      end
  | BeginPath =>
      {| state := ds; path := []; stack := stack ctx; painted := painted ctx |}
  | PathRect x y w h =>
      {| state := ds; path := path ctx ++ [{| rx := x; ry := y; rw := w; rh := h |}];
         stack := stack ctx; painted := painted ctx |}
  | Clip =>
      with_state ctx {| fillStyle := fillStyle ds; globalAlpha := globalAlpha ds;
                        font := font ds; textAlign := textAlign ds;
                        clipRegion := clipRegion ds ++ path ctx |}
  | FillRect x y w h =>
      paint ctx (PaintedRect ds {| rx := x; ry := y; rw := w; rh := h |})
  | DrawImage media x y w h =>
      paint ctx (PaintedImage ds media {| rx := x; ry := y; rw := w; rh := h |})
  | FillText line x y =>
      paint ctx (PaintedText ds line x y)
  end.

Definition exec (cmds : list Cmd) (ctx : Context2D) : Context2D :=
  fold_left exec1 cmds ctx.

(** A context as [canvas.getContext('2d')] hands it out. *)
Definition fresh_context : Context2D :=
  {| state := {| fillStyle := Hex "#000000"; globalAlpha := Fin 1;
                 font := (Fin 10, "sans-serif"%string); textAlign := left;
                 clipRegion := [] |};
     path := []; stack := []; painted := [] |}.

(** ** Frame compositor (the drawing part of the frame loop) *)

Record Dims := { w : Q; h : Q }.

(** [getMediaDims]: [loadMedia] builds the element from the slot's type,
    so the element's kind and the [type] argument agree. *)
Definition getMediaDims (el : Media) : Dims :=
  match el with
  | Img i => {| w := width i; h := height i |}
  | Vid v => {| w := videoWidth v; h := videoHeight v |}
  end.

Fixpoint split_newline (s cur : string) : list string :=
  match s with
  | EmptyString => [cur]
  | String ch rest =>
      if Ascii.eqb ch "010"%char
      then cur :: split_newline rest EmptyString
      else split_newline rest (cur ++ String ch EmptyString)
  end.

(** [typography.content.split('\n')] *)
Definition split_lines (s : string) : list string := split_newline s EmptyString.

Definition of_nat (n : nat) : Q := inject_Z (Z.of_nat n).

Open Scope num_scope.

Definition panelWidth : num := 1920 / 3.

Definition fadeOutStartTime (tm : TimingConfig) : num :=
  totalDuration tm - t7 tm.

Section Compositor.

(** [Math.sin] on finite arguments and [Math.PI] come from the host. *)
Variable sin : Q -> Q.
Variable PI : Q.

Definition Math_sin (x : num) : num :=
  match x with
  | Fin q => Fin (sin q)
  | _ => NaN
  end.

Variable tm : TimingConfig.
Variable sl : Slots.
Variable typo : TypographyConfig.
Variable anim : AnimationConfig.
Variables dimsA dimsB dimsC dimsD : Dims.

(** Frame time [t = frame / FPS]. *)
Variable t : Q.

(** *** Intro layer *)

Definition introOpacity : num :=
  if t <? t1 tm then 1 else Math_max 0 (1 - (t - t1 tm) / t2 tm).

Definition kenBurns : num := 1 + (t / (t1 tm + t2 tm)) * 0.05.

Definition paintIntro : list Cmd :=
  if t <? t1 tm + t2 tm then
    let mediaAspect := w dimsA / h dimsA in
    let targetAspect := 1920 / 1080 in
    let drawH_wide := 1080 * kenBurns in
    let drawW_wide := drawH_wide * mediaAspect in
    let drawW_tall := 1920 * kenBurns in
    let drawH_tall := drawW_tall / mediaAspect in
    let drawW := if mediaAspect >? targetAspect then drawW_wide else drawW_tall in
    let drawH := if mediaAspect >? targetAspect then drawH_wide else drawH_tall in
    [ Save;
      SetGlobalAlpha introOpacity;
      DrawImage SlotA ((1920 - drawW) / 2) ((1080 - drawH) / 2) drawW drawH;
      Restore ]
  else [].

(** *** Collage layer *)

(** Collage-local time. *)
Definition ct : num := t - (t1 tm + t2 tm).

Definition drawPanel (media : SlotId) (index : Q) (xOff yOff : Q)
    (scale : num) (dims : Dims) : list Cmd :=
  let mediaAspect := w dims / h dims in
  let panelAspect := panelWidth / 1080 in
  let drawH_wide := 1080 * scale in
  let drawW_wide := drawH_wide * mediaAspect in
  let drawW_tall := panelWidth * scale in
  let drawH_tall := drawW_tall / mediaAspect in
  let drawW := if mediaAspect >? panelAspect then drawW_wide else drawW_tall in
  let drawH := if mediaAspect >? panelAspect then drawH_wide else drawH_tall in
  let overflowX := drawW - panelWidth in
  let imgTargetX := (index * panelWidth) - (overflowX * (xOff / 100)) in
  let imgTargetY := (1080 - drawH) / 2 + yOff in
  [ Save;
    BeginPath;
    PathRect (index * panelWidth) 0 panelWidth 1080;
    Clip;
    DrawImage media imgTargetX imgTargetY drawW drawH;
    Restore ].

Definition entryProgress : num := Math_min (ct / t3 tm) 1.

Definition getBounce (delay : num) : num :=
  let bt := ct - t3 tm - delay in
  let bDur := t4 tm / 3 in
  if (bt <? 0) || (bt >? bDur) then 1
  else 1 + Math_sin ((bt / bDur) * PI) * (bounceScale anim - 1).

Definition ease : num := 1 - Math_pow (1 - entryProgress) 3.

(** The black rectangles laid over the panels during entry. *)
Definition entryMasks : list Cmd :=
  let offset := panelWidth * (1 - ease) in
  [ SetFillStyle (Hex "#000000");
    FillRect 0 0 offset 1080;
    FillRect panelWidth 0 panelWidth (1080 * (1 - ease));
    FillRect (1920 - offset) 0 offset 1080 ].

(** The branch taken while [ct < timing.t3]. *)
Definition paintEntry : list Cmd :=
  drawPanel SlotB 0 (xOffset (b sl)) 0 1 dimsB ++
  drawPanel SlotC 1 (xOffset (c sl)) 0 1 dimsC ++
  drawPanel SlotD 2 (xOffset (d sl)) 0 1 dimsD ++
  entryMasks.

(** The branch taken otherwise. *)
Definition paintBounce : list Cmd :=
  drawPanel SlotB 0 (xOffset (b sl)) 0 (getBounce 0) dimsB ++
  drawPanel SlotC 1 (xOffset (c sl)) 0 (getBounce (t4 tm / 3)) dimsC ++
  drawPanel SlotD 2 (xOffset (d sl)) 0 (getBounce ((t4 tm / 3) * 2)) dimsD.

(** Time since the overlay started. *)
Definition ot : num := ct - t3 tm - t4 tm - tHold tm.

Definition overlayOpacity : num := Math_min (ot / t5 tm) 1.

Definition paintOverlay : list Cmd :=
  if ot >? 0 then
    let lines := split_lines (content typo) in
    let lineHeight := fontSize typo * 1.5 in
    let totalTextHeight := of_nat (List.length lines) * lineHeight in
    let startY := 540 - (totalTextHeight / 2) + (lineHeight / 2) in
    let x : num := match align typo with
                   | center => 960
                   | left => 200
                   | right => 1720
                   end in
    [ Save;
      SetFillStyle (Rgba 0 0 0 (overlayOpacity * 0.4));
      FillRect 0 0 1920 1080;
      SetGlobalAlpha overlayOpacity;
      SetFillStyle (Hex (color typo));
      SetFont (fontSize typo * 1.5) (fontFamily typo);
      SetTextAlign (align typo);
      SetTextBaselineMiddle ] ++
    map (fun li => FillText (snd li) x (startY + (of_nat (fst li) * lineHeight)))
        (combine (seq 0 (List.length lines)) lines) ++
    [ Restore ]
  else [].

Definition paintCollage : list Cmd :=
  if t >=? t1 tm + t2 tm then
    [ SetGlobalAlpha 1 ] ++
    (if ct <? t3 tm then paintEntry else paintBounce) ++
    paintOverlay
  else [].

(** *** Final fade *)

Definition fadeProgress : num := (t - fadeOutStartTime tm) / t7 tm.

Definition paintFinalFade : list Cmd :=
  if t >? fadeOutStartTime tm then
    [ Save;
      SetGlobalAlpha (Math_min fadeProgress 1);
      SetFillStyle (match fadeColor anim with
                    | white => Hex "#FFFFFF"
                    | black => Hex "#000000"
                    end);
      FillRect 0 0 1920 1080;
      Restore ]
  else [].

(** Everything one iteration of the frame loop draws, in order. *)
Definition paintFrame : list Cmd :=
  [ SetFillStyle (Hex "#000000"); FillRect 0 0 1920 1080 ] ++
  paintIntro ++ paintCollage ++ paintFinalFade.

End Compositor.

Close Scope num_scope.

(** ** Render loop ([startRecording]) *)

Inductive RenderStatus := idle | rendering | completed | error.

Inductive EncoderState := configured | closed.

(** A frame handed to [videoEncoder.encode]. *)
Record VideoFrame := {
  timestamp : Q;
  keyFrame : bool;
  picture : list Painted
}.

(** The component state [startRecording] writes. *)
Record RenderState := {
  renderStatus : RenderStatus;
  renderProgress : num;
  renderError : option string;
  recordedUrl : option (list VideoFrame);   (* URL of the finalized buffer *)
  isPlaying : bool;
  lastRecordedQuality : option Quality
}.

Record MediaElements := {
  mediaA : Media;
  mediaB : Media;
  mediaC : Media;
  mediaD : Media
}.

(** What the surroundings decide during one call: whether the canvas, the
    encoder class and the 2D context are there, what [loadMedia] delivers
    ([None] when a load is rejected), the value of
    [stopRequestedRef.current] read by each iteration (the call clears the
    flag before it starts; [togglePlayback] sets it while a render is
    playing), and a fault raised while a frame is encoded. *)
Record Host := {
  hasCanvas : bool;
  hasVideoEncoder : bool;
  loaded : option MediaElements;
  context : option Context2D;
  stopRequestedAt : nat -> bool;
  encodeFault : nat -> option string;
  canvasError : string;
  browserWarning : string
}.

Definition FPS (q : Quality) : Q :=
  match q with high => 60 | standard => 30 end.

Definition bitrate (q : Quality) : Q :=
  match q with high => 20000000 | standard => 10000000 end.

(** [Math.ceil(totalDuration * FPS)] *)
Definition totalFrames (tm : TimingConfig) (q : Quality) : Z :=
  Qceiling (totalDuration tm * FPS q).

(** [t = frame / FPS]; [FPS] is 30 or 60. *)
Definition frameTime (q : Quality) (frame : nat) : Q :=
  of_nat frame / FPS q.

(** The value passed to [setRenderProgress]. *)
Definition progressValue (frame : nat) (totalFrames : Z) : num :=
  ((of_nat frame / inject_Z totalFrames) * 100)%num.

(** [frame % 5 === 0 || frame === totalFrames] *)
Definition reportsProgress (frame : nat) (totalFrames : Z) : bool :=
  (Nat.modulo frame 5 =? 0)%nat || (Z.of_nat frame =? totalFrames)%Z.

Definition seekSlot (el : Media) (slot : MediaSlotData) (elapsed : num) : Media :=
  match type slot, el with
  | video, Vid v =>
      Vid (fst (seekVideo v (startTime slot) (option_map Fin (endTime slot))
                          (loop slot) elapsed))
  | _, _ => el
  end.

(** The [syncPromises] of one iteration, all awaited. *)
Definition syncMedia (st : AppState) (frame_t : Q) (m : MediaElements)
    : MediaElements :=
  let tm := timing st in
  let sl := slots st in
  let A := if (frame_t <? t1 tm + t2 tm)%num
           then seekSlot (mediaA m) (a sl) frame_t else mediaA m in
  if (frame_t >=? t1 tm)%num then
    let ct := (frame_t - (t1 tm + t2 tm))%num in
    {| mediaA := A;
       mediaB := seekSlot (mediaB m) (b sl) ct;
       mediaC := seekSlot (mediaC m) (c sl) ct;
       mediaD := seekSlot (mediaD m) (d sl) ct |}
  else
    {| mediaA := A; mediaB := mediaB m; mediaC := mediaC m; mediaD := mediaD m |}.

(** Local state of the loop. *)
Record Pipeline := {
  app : RenderState;
  media : MediaElements;
  ctx : Context2D;
  submitted : list VideoFrame          (* frames given to the encoder *)
}.

Inductive Outcome :=
| Finished (p : Pipeline)
| Thrown (message : option string) (p : Pipeline).

Definition stopMessage : string := "Recording stopped by user".

Definition set_progress (r : RenderState) (x : num) : RenderState :=
  {| renderStatus := renderStatus r; renderProgress := x;
     renderError := renderError r; recordedUrl := recordedUrl r;
     isPlaying := isPlaying r; lastRecordedQuality := lastRecordedQuality r |}.

Definition begin_frame (cx : Context2D) : Context2D :=
  {| state := state cx; path := path cx; stack := stack cx; painted := [] |}.

Section Loop.

Variable sin : Q -> Q.
Variable PI : Q.
Variable host : Host.
Variable st : AppState.

(** Media dimensions, computed once before the loop. *)
Variables dimsA dimsB dimsC dimsD : Dims.

(** One iteration of the [for] loop. *)
Definition frameStep (p : Pipeline) (frame : nat) : Outcome :=
  if stopRequestedAt host frame then Thrown (Some stopMessage) p
  else
    let q := quality st in
    let frame_t := frameTime q frame in
    let total := totalFrames (timing st) q in
    let app1 := if reportsProgress frame total
                then set_progress (app p) (progressValue frame total)
                else app p in
    let media1 := syncMedia st frame_t (media p) in
    let ctx1 :=
      exec (paintFrame sin PI (timing st) (slots st) (typography st)
              (animation st) dimsA dimsB dimsC dimsD frame_t)
           (begin_frame (ctx p)) in
    let p1 := {| app := app1; media := media1; ctx := ctx1;
                 submitted := submitted p |} in
    match encodeFault host frame with
    | Some msg => Thrown (Some msg) p1
    | None =>
        let videoFrame :=
          {| timestamp := (of_nat frame * 1000000) / FPS q;
             keyFrame := (Nat.modulo frame 60 =? 0)%nat;
             picture := painted ctx1 |} in
        Finished {| app := app1; media := media1; ctx := ctx1;
                    submitted := submitted p ++ [videoFrame] |}
    end.

(** Iterations [frame, frame+1, ...] for [n] rounds. *)
Fixpoint frameLoop (n : nat) (frame : nat) (p : Pipeline) : Outcome :=
  match n with
  | O => Finished p
  | S n' =>
      match frameStep p frame with
      | Finished p' => frameLoop n' (S frame) p'
      | Thrown msg p' => Thrown msg p'
      end
  end.

(** [for (let frame = 0; frame <= totalFrames; frame++)] *)
Definition runFrames (p : Pipeline) : Outcome :=
  frameLoop (Z.to_nat (totalFrames (timing st) (quality st) + 1)) 0 p.

End Loop.

(** The [finally] block: every video element is paused, emptied,
    reloaded and removed. *)
Definition release (el : Media) : Media :=
  match el with
  | Img i => Img i
  | Vid v =>
      Vid {| duration := NaN; currentTime := Fin 0;
             videoWidth := videoWidth v; videoHeight := videoHeight v;
             paused := true; src := EmptyString; attached := false |}
  end.

Definition releaseAll (m : MediaElements) : MediaElements :=
  {| mediaA := release (mediaA m); mediaB := release (mediaB m);
     mediaC := release (mediaC m); mediaD := release (mediaD m) |}.

(** The [catch] block's writes to the component state. *)
Definition handleError (r : RenderState) (message : option string) : RenderState :=
  let stopped := match message with
                 | Some m => String.eqb m stopMessage
                 | None => false
                 end in
  {| renderStatus := if stopped then idle else error;
     renderProgress := renderProgress r;
     renderError := if stopped then renderError r
                    else Some "Recording failed. Check your assets and try again."%string;
     recordedUrl := recordedUrl r;
     isPlaying := false;
     lastRecordedQuality := lastRecordedQuality r |}.

Definition fail_fast (r : RenderState) (msg : string) : RenderState :=
  {| renderStatus := error; renderProgress := renderProgress r;
     renderError := Some msg; recordedUrl := recordedUrl r;
     isPlaying := isPlaying r; lastRecordedQuality := lastRecordedQuality r |}.

(** What a call leaves behind: the component state, the media elements
    after the [finally] block (if they were loaded), the encoder (if it
    was created) and the frames it was given. *)
Record RenderResult := {
  final : RenderState;
  elements : option MediaElements;
  videoEncoder : option EncoderState;
  encoded : list VideoFrame
}.

Section Recording.

Variable sin : Q -> Q.
Variable PI : Q.
Variable host : Host.
Variable st : AppState.

Definition startRecording (r : RenderState) : RenderResult :=
  if negb (hasCanvas host) then
    {| final := fail_fast r (canvasError host); elements := None;
       videoEncoder := None; encoded := [] |}
  else if negb (hasVideoEncoder host) then
    {| final := fail_fast r (browserWarning host); elements := None;
       videoEncoder := None; encoded := [] |}
  else
    let r1 := {| renderStatus := rendering; renderProgress := Fin 0;
                 renderError := None; recordedUrl := None;
                 isPlaying := true;
                 lastRecordedQuality := Some (quality st) |} in
    match loaded host with
    | None =>
        {| final := handleError r1 None; elements := None;
           videoEncoder := None; encoded := [] |}
    | Some els =>
        match context host with
        | None =>
            {| final := handleError r1 (Some "Canvas context failed"%string);
               elements := Some (releaseAll els);
               videoEncoder := None; encoded := [] |}
        | Some cx =>
            let dimsA := getMediaDims (mediaA els) in
            let dimsB := getMediaDims (mediaB els) in
            let dimsC := getMediaDims (mediaC els) in
            let dimsD := getMediaDims (mediaD els) in
            match runFrames sin PI host st dimsA dimsB dimsC dimsD
                    {| app := r1; media := els; ctx := cx; submitted := [] |} with
            | Finished p =>
                let done := app p in
                {| final := {| renderStatus := completed;
                               renderProgress := renderProgress done;
                               renderError := renderError done;
                               recordedUrl := Some (submitted p);
                               isPlaying := false;
                               lastRecordedQuality := lastRecordedQuality done |};
                   elements := Some (releaseAll (media p));
                   videoEncoder := Some closed;
                   encoded := submitted p |}
            | Thrown message p =>
                {| final := handleError (app p) message;
                   elements := Some (releaseAll (media p));
                   videoEncoder := Some closed;
                   encoded := submitted p |}
            end
        end
    end.

End Recording.

(** ** Notions used to state the properties *)

(** Commands that leave the clipping region and the save stack as they
    found them. *)
Definition balanced (cmds : list Cmd) : Prop :=
  forall cx : Context2D,
    clipRegion (state (exec cmds cx)) = clipRegion (state cx) /\
    stack (exec cmds cx) = stack cx.

Definition fullFrame : Rect :=
  {| rx := Fin 0; ry := Fin 0; rw := Fin 1920; rh := Fin 1080 |}.

Definition fadeHex (anim : AnimationConfig) : Style :=
  match fadeColor anim with
  | white => Hex "#FFFFFF"
  | black => Hex "#000000"
  end.

(** The layers below the final fade: clear, intro, collage. *)
Definition paintBelowFade (sin : Q -> Q) (PI : Q) (tm : TimingConfig)
    (sl : Slots) (typo : TypographyConfig) (anim : AnimationConfig)
    (dimsA dimsB dimsC dimsD : Dims) (t : Q) : list Cmd :=
  [ SetFillStyle (Hex "#000000"); FillRect (Fin 0) (Fin 0) (Fin 1920) (Fin 1080) ] ++
  paintIntro tm dimsA t ++
  paintCollage sin PI tm sl typo anim dimsB dimsC dimsD t.

(** The three collage panels, the delay each one hands to [getBounce],
    and the scale each one is drawn with in the collage layer. *)
Inductive Panel := PanelB | PanelC | PanelD.

Definition bounceDelay (tm : TimingConfig) (p : Panel) : Q :=
  match p with
  | PanelB => 0
  | PanelC => t4 tm / 3
  | PanelD => (t4 tm / 3) * 2
  end.

Definition panelScale (sin : Q -> Q) (PI : Q) (tm : TimingConfig)
    (anim : AnimationConfig) (t : Q) (p : Panel) : num :=
  if (ct tm t <? Fin (t3 tm))%num then Fin 1
  else getBounce sin PI tm anim t (Fin (bounceDelay tm p)).

Definition is_image (p : Painted) : bool :=
  match p with
  | PaintedImage _ _ _ => true
  | _ => false
  end.

(** Component states that differ at most in the reported progress. *)
Definition progress_only (r r' : RenderState) : Prop :=
  renderStatus r' = renderStatus r /\
  renderError r' = renderError r /\
  recordedUrl r' = recordedUrl r /\
  isPlaying r' = isPlaying r /\
  lastRecordedQuality r' = lastRecordedQuality r.

(** A media element whose resources have been given back: a video is
    paused, has no source and is out of the document. *)
Definition released (el : Media) : Prop :=
  match el with
  | Img _ => True
  | Vid v => paused v = true /\ src v = EmptyString /\ attached v = false
  end.

(** ** Sample configurations

    The default timing of the design document's scenario (with the final
    fade switched off), a still image and a trimmed clip. *)

Definition scenario_timing : TimingConfig :=
  {| t1 := 2; t2 := 1 # 2; t3 := 1 # 2; t4 := 3 # 2;
     tHold := 1; t5 := 1; t6 := 5 # 2; t7 := 0 |}.

(** The same with an instantaneous bounce phase. *)
Definition instant_bounce_timing : TimingConfig :=
  {| t1 := 2; t2 := 1 # 2; t3 := 1 # 2; t4 := 0;
     tHold := 1; t5 := 1; t6 := 5 # 2; t7 := 0 |}.

(** The same with an instantaneous entry phase. *)
Definition instant_entry_timing : TimingConfig :=
  {| t1 := 2; t2 := 1 # 2; t3 := 0; t4 := 3 # 2;
     tHold := 1; t5 := 1; t6 := 5 # 2; t7 := 0 |}.

(** Every phase instantaneous. *)
Definition zero_timing : TimingConfig :=
  {| t1 := 0; t2 := 0; t3 := 0; t4 := 0;
     tHold := 0; t5 := 0; t6 := 0; t7 := 0 |}.

Definition still_slot (pan : Q) : MediaSlotData :=
  {| url := Some "still.jpg"%string; type := image; xOffset := pan;
     startTime := 0; endTime := Some 0; loop := None |}.

(** A video slot trimmed to [[5, 10]], looping. *)
Definition clip_slot : MediaSlotData :=
  {| url := Some "blob:clip"%string; type := video; xOffset := 50;
     startTime := 5; endTime := Some 10; loop := Some true |}.

Definition sample_typography : TypographyConfig :=
  {| content := "MOMENTS IN MOTION"%string; fontSize := 64;
     color := "#FFFFFF"%string; align := center; fontFamily := "Inter"%string |}.

Definition sample_animation : AnimationConfig :=
  {| bounceScale := 108 # 100; fadeColor := black |}.

Definition sample_state (tm : TimingConfig) : AppState :=
  {| slots := {| a := still_slot 50; b := clip_slot;
                 c := still_slot 50; d := still_slot 80 |};
     timing := tm; typography := sample_typography;
     animation := sample_animation; quality := standard |}.

Definition still : Media := Img {| width := 1920; height := 1080 |}.

Definition clip (position : Q) : HTMLVideoElement :=
  {| duration := Fin 20; currentTime := Fin position;
     videoWidth := 1920; videoHeight := 1080;
     paused := true; src := "blob:clip"%string; attached := false |}.

Definition sample_media : MediaElements :=
  {| mediaA := still; mediaB := Vid (clip 0); mediaC := still; mediaD := still |}.

Definition sample_dims : Dims := {| w := 1920; h := 1080 |}.

(** A host in which nothing goes wrong and nobody asks to stop. *)
Definition quiet_host : Host :=
  {| hasCanvas := true; hasVideoEncoder := true;
     loaded := Some sample_media; context := Some fresh_context;
     stopRequestedAt := fun _ => false;
     encodeFault := fun _ => None;
     canvasError := "Canvas is not ready"%string;
     browserWarning := "WebCodecs is not supported"%string |}.

(** The same host, with a stop request seen by iteration [k]. *)
Definition stopping_host (k : nat) : Host :=
  {| hasCanvas := true; hasVideoEncoder := true;
     loaded := Some sample_media; context := Some fresh_context;
     stopRequestedAt := fun frame => (k <=? frame)%nat;
     encodeFault := fun _ => None;
     canvasError := "Canvas is not ready"%string;
     browserWarning := "WebCodecs is not supported"%string |}.

Definition initial_render_state : RenderState :=
  {| renderStatus := idle; renderProgress := Fin 0; renderError := None;
     recordedUrl := None; isPlaying := false; lastRecordedQuality := None |}.

(** Playback position of an element; a still image has none. *)
Definition position (el : Media) : option num :=
  match el with
  | Vid v => Some (currentTime v)
  | Img _ => None
  end.

(** ** Notions used by the further properties *)

(** A context whose fill style is black and whose opacity is 1, as a new
    context is and as the frame loop leaves it. *)
Definition settled (cx : Context2D) : Prop :=
  fillStyle (state cx) = Hex "#000000" /\ globalAlpha (state cx) = Fin 1.

(** Commands whose paint and whose effect on the drawing state depend on
    the drawing state they start from only, not on the path, the stack or
    what was painted before. *)
Definition self_contained (cmds : list Cmd) : Prop :=
  forall cx cx' : Context2D,
    state cx = state cx' ->
    exists ps : list Painted,
      painted (exec cmds cx) = painted cx ++ ps /\
      painted (exec cmds cx') = painted cx' ++ ps /\
      state (exec cmds cx) = state (exec cmds cx').

(** Commands that give a settled context back with the drawing state it
    had. *)
Definition keeps_settled (cmds : list Cmd) : Prop :=
  forall cx : Context2D, settled cx -> state (exec cmds cx) = state cx.

(** The frame with number [frame] as a render that starts on the context
    [cx0] produces it: time stamp, key-frame flag and picture. *)
Definition renderedFrame (sin : Q -> Q) (PI : Q) (st : AppState)
    (dimsA dimsB dimsC dimsD : Dims) (cx0 : Context2D) (frame : nat)
    : VideoFrame :=
  {| timestamp := (of_nat frame * 1000000) / FPS (quality st);
     keyFrame := (Nat.modulo frame 60 =? 0)%nat;
     picture :=
       painted
         (exec (paintFrame sin PI (timing st) (slots st) (typography st)
                  (animation st) dimsA dimsB dimsC dimsD
                  (frameTime (quality st) frame))
               (begin_frame cx0)) |}.


(** A host whose encoder fails on frame [k]. *)
Definition faulting_host (k : nat) : Host :=
  {| hasCanvas := true; hasVideoEncoder := true;
     loaded := Some sample_media; context := Some fresh_context;
     stopRequestedAt := fun _ => false;
     encodeFault := fun frame =>
       if (frame =? k)%nat then Some "EncodingError"%string else None;
     canvasError := "Canvas is not ready"%string;
     browserWarning := "WebCodecs is not supported"%string |}.

(** The test [onReady] makes before [loadMedia] resolves with a video:
    [video.duration && !isNaN(video.duration) && video.duration !== Infinity]. *)
Definition onReady_resolves (video_duration : num) : bool :=
  truthy video_duration && negb (isNaN video_duration)
  && negb (isPosInfinity video_duration).

(** Two states of the same media element: same kind, same natural size,
    and for a video the same duration, source, pause flag and place in
    the document. *)
Definition same_source (el el' : Media) : Prop :=
  getMediaDims el' = getMediaDims el /\
  match el, el' with
  | Img i, Img i' => i' = i
  | Vid v, Vid v' =>
      duration v' = duration v /\ src v' = src v /\
      paused v' = paused v /\ attached v' = attached v
  | _, _ => False
  end.

(** ** Quality changes ([handleUpdateQuality], [confirmQualityChange]) *)

Definition Quality_eqb (x y : Quality) : bool :=
  match x, y with
  | standard, standard | high, high => true
  | _, _ => false
  end.

(** The component state the two handlers read and write. *)
Record Component := {
  appState : AppState;
  render : RenderState;
  pendingQuality : option Quality
}.

Definition set_quality (s : AppState) (q : Quality) : AppState :=
  {| slots := slots s; timing := timing s; typography := typography s;
     animation := animation s; quality := q |}.

Definition handleUpdateQuality (q : Quality) (c : Component) : Component :=
  if Quality_eqb (quality (appState c)) q then c
  else
    match recordedUrl (render c) with
    | Some _ =>
        {| appState := appState c; render := render c;
           pendingQuality := Some q |}
    | None =>
        {| appState := set_quality (appState c) q; render := render c;
           pendingQuality := pendingQuality c |}
    end.

Definition confirmQualityChange (c : Component) : Component :=
  match pendingQuality c with
  | Some q =>
      {| appState := set_quality (appState c) q;
         render := {| renderStatus := idle; renderProgress := Fin 0;
                      renderError := renderError (render c);
                      recordedUrl := None;
                      isPlaying := isPlaying (render c);
                      lastRecordedQuality := lastRecordedQuality (render c) |};
         pendingQuality := None |}
  | None => c
  end.

(** ** Slot updates ([handleUpdateSlots]) *)

(** A [Partial<MediaSlotData>]: each field is given or not. *)
Record PartialSlot := {
  new_url : option (option string);
  new_type : option MediaType;
  new_xOffset : option Q;
  new_startTime : option Q;
  new_endTime : option (option Q);
  new_loop : option (option bool)
}.

Definition or_keep (A : Type) (given : option A) (kept : A) : A :=
  match given with
  | Some x => x
  | None => kept
  end.

(** [{ ...slot, ...data }] *)
Definition merge (slot : MediaSlotData) (data : PartialSlot) : MediaSlotData :=
  {| url := or_keep (new_url data) (url slot);
     type := or_keep (new_type data) (type slot);
     xOffset := or_keep (new_xOffset data) (xOffset slot);
     startTime := or_keep (new_startTime data) (startTime slot);
     endTime := or_keep (new_endTime data) (endTime slot);
     loop := or_keep (new_loop data) (loop slot) |}.

Definition get_slot (sl : Slots) (id : SlotId) : MediaSlotData :=
  match id with
  | SlotA => a sl
  | SlotB => b sl
  | SlotC => c sl
  | SlotD => d sl
  end.

Definition set_slot (sl : Slots) (id : SlotId) (v : MediaSlotData) : Slots :=
  match id with
  | SlotA => {| a := v; b := b sl; c := c sl; d := d sl |}
  | SlotB => {| a := a sl; b := v; c := c sl; d := d sl |}
  | SlotC => {| a := a sl; b := b sl; c := v; d := d sl |}
  | SlotD => {| a := a sl; b := b sl; c := c sl; d := v |}
  end.

(** Truthiness of a URL: [null], [undefined] and the empty string are
    falsy. *)
Definition truthy_url (u : option string) : bool :=
  match u with
  | Some s => negb (String.eqb s EmptyString)
  | None => false
  end.

(** The state updater of [handleUpdateSlots], with the URLs it revokes. *)
Definition handleUpdateSlots (slotId : SlotId) (data : PartialSlot)
    (prev : AppState) : AppState * list string :=
  let old := url (get_slot (slots prev) slotId) in
  let given := match new_url data with
               | Some u => u
               | None => None
               end in
  let revoked :=
    match given, old with
    | Some n, Some o =>
        if truthy_url given && truthy_url old && negb (String.eqb n o)
           && String.prefix "blob:" o
        then [o] else []
    | _, _ => []
    end in
  ({| slots := set_slot (slots prev) slotId
                 (merge (get_slot (slots prev) slotId) data);
      timing := timing prev; typography := typography prev;
      animation := animation prev; quality := quality prev |},
   revoked).

(** ** Crop selector ([MediaCropSelector.handleUpdate]) *)

(** [Math.round]: the nearest integer, halves rounded up. *)
Definition Math_round (x : num) : num :=
  match x with
  | Fin q => Fin (inject_Z (Qfloor (q + (1 # 2))))
  | _ => x
  end.

(** The value handed to [onChange], if any; [container] is the left edge
    and the width of the selector's bounding rectangle, absent while the
    element is not mounted. *)
Definition handleUpdate (container : option (Q * Q)) (clientX : Q)
    (aspectRatio : option Q) : option num :=
  match container with
  | None => None
  | Some (rect_left, rect_width) =>
      let x := (Fin clientX - Fin rect_left)%num in
      let width := Fin rect_width in
      let maskWidth := (width / Fin 3)%num in
      let panelAspect := ((Fin 1920 / Fin 3) / Fin 1080)%num in
      let imageAspect := Fin (match aspectRatio with
                              | Some r => r
                              | None => 1.777
                              end) in
      if (imageAspect <=? panelAspect)%num then Some (Fin 50)
      else
        let maxMove := (width - maskWidth)%num in
        let newLeft := (x - (maskWidth / Fin 2))%num in
        let newLeft := Math_max (Fin 0) (Math_min newLeft maxMove) in
        let percentage := ((newLeft / maxMove) * Fin 100)%num in
        Some (Math_round percentage)
  end.

(** * Properties *)

(** ** Arithmetic of the number model *)

Lemma Qlt_bool_iff (x y : Q) : Qlt_bool x y = true <-> x < y.
Proof.
  unfold Qlt_bool. rewrite negb_true_iff. split; intro H.
  - apply Qnot_le_lt. intro L. apply Qle_bool_iff in L. congruence.
  - destruct (Qle_bool y x) eqn:E; [|reflexivity].
    apply Qle_bool_iff in E. lra.
Qed.

Lemma Qlt_bool_false (x y : Q) : Qlt_bool x y = false <-> y <= x.
Proof.
  unfold Qlt_bool. rewrite negb_false_iff. apply Qle_bool_iff.
Qed.

Lemma Qle_bool_false (x y : Q) : Qle_bool x y = false <-> y < x.
Proof.
  split; intro H.
  - apply Qnot_le_lt. intro L. apply Qle_bool_iff in L. congruence.
  - destruct (Qle_bool x y) eqn:E; [|reflexivity].
    apply Qle_bool_iff in E. lra.
Qed.

Lemma Qeq_bool_false (x y : Q) : Qeq_bool x y = false <-> ~ x == y.
Proof.
  split; intro H.
  - intro E. apply Qeq_bool_iff in E. congruence.
  - destruct (Qeq_bool x y) eqn:E; [|reflexivity].
    apply Qeq_bool_iff in E. contradiction.
Qed.



Lemma Qdiv_nonneg (x y : Q) : 0 <= x -> 0 < y -> 0 <= x / y.
Proof.
  intros Hx Hy. apply Qle_shift_div_l; lra.
Qed.



(** Operations on finite numbers. *)

Lemma add_Fin (x y : Q) : (Fin x + Fin y)%num = Fin (x + y).
Proof. reflexivity. Qed.

Lemma sub_Fin (x y : Q) : (Fin x - Fin y)%num = Fin (x - y).
Proof. reflexivity. Qed.

Lemma mul_Fin (x y : Q) : (Fin x * Fin y)%num = Fin (x * y).
Proof. reflexivity. Qed.

Lemma div_Fin (x y : Q) : ~ y == 0 -> (Fin x / Fin y)%num = Fin (x / y).
Proof.
  intro H. unfold div. apply Qeq_bool_false in H. now rewrite H.
Qed.

Lemma rem_Fin (x y : Q) : ~ y == 0 -> (Fin x mod Fin y)%num = Fin (Qrem x y).
Proof.
  intro H. unfold rem. apply Qeq_bool_false in H. now rewrite H.
Qed.

Lemma lt_Fin (x y : Q) : (Fin x <? Fin y)%num = true <-> x < y.
Proof. apply Qlt_bool_iff. Qed.

Lemma lt_Fin_false (x y : Q) : (Fin x <? Fin y)%num = false <-> y <= x.
Proof. apply Qlt_bool_false. Qed.

Lemma gt_Fin (x y : Q) : (Fin x >? Fin y)%num = true <-> y < x.
Proof. apply Qlt_bool_iff. Qed.

Lemma gt_Fin_false (x y : Q) : (Fin x >? Fin y)%num = false <-> x <= y.
Proof. apply Qlt_bool_false. Qed.

Lemma ge_Fin (x y : Q) : (Fin x >=? Fin y)%num = true <-> y <= x.
Proof. apply Qle_bool_iff. Qed.

Lemma ge_Fin_false (x y : Q) : (Fin x >=? Fin y)%num = false <-> x < y.
Proof. apply Qle_bool_false. Qed.


Lemma Math_min_Fin_cases (x y : Q) :
  (x <= y /\ Math_min (Fin x) (Fin y) = Fin x) \/
  (y < x /\ Math_min (Fin x) (Fin y) = Fin y).
Proof.
  unfold Math_min, le. destruct (Qle_bool x y) eqn:E.
  - apply Qle_bool_iff in E. now left.
  - apply Qle_bool_false in E. now right.
Qed.

(** ** Media synchronizer *)



(** Outside the guard the target is the start of the window. *)
Lemma targetTime_unguarded (dur s : num) (endT : option num) (lp : option bool)
    (e : num) :
  (effectiveEndTime dur s endT - s >? Fin 0)%num = false ->
  targetTime dur s endT lp e = s.
Proof.
  intro H. unfold targetTime. now rewrite H.
Qed.


Lemma targetTime_finite (dur : num) (endT : option num) (lp : option bool)
    (s e : Q) :
  isFinite (targetTime dur s endT lp e) = true.
Proof.
  unfold targetTime.
  destruct (effectiveEndTime dur s endT) as [E| | |] eqn:HE;
    try reflexivity; try (destruct (loops lp); reflexivity).
  rewrite sub_Fin.
  destruct (Fin (E - s) >? Fin 0)%num eqn:G; [|reflexivity].
  apply gt_Fin in G.
  destruct (loops lp).
  - rewrite rem_Fin by lra. reflexivity.
  - rewrite add_Fin. destruct (Math_min_Fin_cases (s + e) E) as [[_ ->]|[_ ->]];
      reflexivity.
Qed.




(** Slot [a] is always given a non-negative elapsed time, the panels from
    the start of the collage window on. *)
Lemma frameTime_nonneg (q : Quality) (frame : nat) : 0 <= frameTime q frame.
Proof.
  unfold frameTime, of_nat. apply Qdiv_nonneg.
  - change 0 with (inject_Z 0). rewrite <- Zle_Qle. lia.
  - destruct q; reflexivity.
Qed.





(** C9.  The readiness wait is tolerance-based: a video already within
    0.01 s of the target is left where it is and the promise resolves at
    once; otherwise [currentTime] is set to the target and the promise
    resolves on [seeked].  Either way the position the compositor samples
    is within 0.01 s of the target, and it can differ from it. *)
Theorem C9_seek_tolerance :
  (forall (v : HTMLVideoElement) (s : num) (endT : option num)
          (lp : option bool) (e : num),
      let target := targetTime (duration v) s endT lp e in
      seekVideo v s endT lp e =
        if (Math_abs (currentTime v - target) <? Fin (1 # 100))%num
        then (v, ResolvedAtOnce)
        else (set_currentTime v target, ResolvedOnSeeked)) /\
  (forall (v : HTMLVideoElement) (s : num) (endT : option num)
          (lp : option bool) (e : num) (q : Q),
      targetTime (duration v) s endT lp e = Fin q ->
      exists p, currentTime (fst (seekVideo v s endT lp e)) = Fin p /\
                Qabs (p - q) < 1 # 100) /\
  (seekVideo (clip (1401 # 200)) 5 (Some (Fin 10)) (Some true) 7
     = (clip (1401 # 200), ResolvedAtOnce)
   /\ targetTime (duration (clip (1401 # 200))) 5 (Some (Fin 10)) (Some true) 7
        =n= 7).
Proof.
  split; [|split].
  - intros. reflexivity.
  - intros v s endT lp e q Hq. unfold seekVideo. rewrite Hq.
    destruct (Math_abs (currentTime v - Fin q) <? Fin (1 # 100))%num eqn:T.
    + cbn [fst]. destruct (currentTime v) as [p| | |]; try discriminate.
      exists p. split; [reflexivity|].
      rewrite sub_Fin in T. unfold Math_abs in T. now apply lt_Fin in T.
    + cbn [fst set_currentTime currentTime]. exists q. split; [reflexivity|].
      apply Qabs_case; intros; lra.
  - split; vm_compute; reflexivity.
Qed.

(** C10.  An [endTime] that is unset or 0 is replaced by the source's
    duration, and an infinite or [NaN] end by [startTime + 60]; whenever
    the segment duration is not strictly positive the target is exactly
    [startTime]; for finite [startTime] and [elapsed] the target is a
    finite number, whatever the trim window and the duration are, so no
    remainder by a zero-length segment is ever taken. *)
Theorem C10_effective_end_and_guard :
  (forall (dur s : num) (endT : option num),
      endT = None \/ endT = Some (Fin 0) ->
      effectiveEndTime dur s endT =
        match dur with
        | PInf | NaN => (s + Fin 60)%num
        | _ => dur
        end) /\
  (forall (dur s : num) (endT : option num) (lp : option bool) (e : num),
      (effectiveEndTime dur s endT - s >? Fin 0)%num = false ->
      targetTime dur s endT lp e = s) /\
  (forall (dur : num) (endT : option num) (lp : option bool) (s e : Q),
      isFinite (targetTime dur s endT lp e) = true).
Proof.
  split; [|split].
  - intros dur s endT [-> | ->]; destruct dur; reflexivity.
  - intros. now apply targetTime_unguarded.
  - intros. apply targetTime_finite.
Qed.

(** ** Canvas *)

Lemma exec_app (l1 l2 : list Cmd) (cx : Context2D) :
  exec (l1 ++ l2) cx = exec l2 (exec l1 cx).
Proof. unfold exec. apply fold_left_app. Qed.

Lemma balanced_nil : balanced [].
Proof. intro cx. split; reflexivity. Qed.

Lemma balanced_app (l1 l2 : list Cmd) :
  balanced l1 -> balanced l2 -> balanced (l1 ++ l2).
Proof.
  intros H1 H2 cx. rewrite exec_app.
  destruct (H1 cx) as [C1 S1]. destruct (H2 (exec l1 cx)) as [C2 S2].
  split; congruence.
Qed.

Lemma balanced_if (cnd : bool) (l1 l2 : list Cmd) :
  balanced l1 -> balanced l2 -> balanced (if cnd then l1 else l2).
Proof. destruct cnd; auto. Qed.

Lemma balanced_FillText (f : nat * string -> Cmd) (ls : list (nat * string)) :
  (forall li, exists line x y, f li = FillText line x y) ->
  balanced (map f ls).
Proof.
  intros Hf. induction ls as [|li ls IH].
  - apply balanced_nil.
  - change (map f (li :: ls)) with ([f li] ++ map f ls).
    apply balanced_app; [|exact IH].
    destruct (Hf li) as (line & x & y & ->). intro cx. split; reflexivity.
Qed.

(** [drawPanel] paints one image, clipped to its panel, and leaves the
    drawing state and the stack untouched. *)
Lemma balanced_drawPanel (media : SlotId) (index xOff yOff : Q) (scale : num)
    (dims : Dims) :
  balanced (drawPanel media index xOff yOff scale dims).
Proof. intro cx. split; reflexivity. Qed.

Lemma balanced_paintIntro (tm : TimingConfig) (dimsA : Dims) (t : Q) :
  balanced (paintIntro tm dimsA t).
Proof.
  unfold paintIntro. apply balanced_if; [|apply balanced_nil].
  intro cx. split; reflexivity.
Qed.

Lemma balanced_paintEntry (tm : TimingConfig) (sl : Slots)
    (dimsB dimsC dimsD : Dims) (t : Q) :
  balanced (paintEntry tm sl dimsB dimsC dimsD t).
Proof.
  unfold paintEntry.
  repeat (apply balanced_app; [apply balanced_drawPanel|]).
  intro cx. split; reflexivity.
Qed.

Lemma balanced_paintBounce (sin : Q -> Q) (PI : Q) (tm : TimingConfig)
    (sl : Slots) (anim : AnimationConfig) (dimsB dimsC dimsD : Dims) (t : Q) :
  balanced (paintBounce sin PI tm sl anim dimsB dimsC dimsD t).
Proof.
  unfold paintBounce.
  repeat (apply balanced_app; [apply balanced_drawPanel|]).
  apply balanced_drawPanel.
Qed.

Lemma balanced_paintOverlay (tm : TimingConfig) (typo : TypographyConfig) (t : Q) :
  balanced (paintOverlay tm typo t).
Proof.
  unfold paintOverlay. apply balanced_if; [|apply balanced_nil].
  intro cx. rewrite !exec_app.
  set (texts := map _ _).
  assert (Ht : balanced texts).
  { apply balanced_FillText. intro li. eauto. }
  set (cx1 := exec _ cx).
  destruct (Ht cx1) as [C S].
  unfold exec at 1 3. simpl. rewrite S. subst cx1. simpl. split; reflexivity.
Qed.

Lemma balanced_paintCollage (sin : Q -> Q) (PI : Q) (tm : TimingConfig)
    (sl : Slots) (typo : TypographyConfig) (anim : AnimationConfig)
    (dimsB dimsC dimsD : Dims) (t : Q) :
  balanced (paintCollage sin PI tm sl typo anim dimsB dimsC dimsD t).
Proof.
  unfold paintCollage. apply balanced_if; [|apply balanced_nil].
  apply balanced_app; [intro cx; split; reflexivity|].
  apply balanced_app; [|apply balanced_paintOverlay].
  apply balanced_if; [apply balanced_paintEntry|apply balanced_paintBounce].
Qed.

Lemma balanced_paintBelowFade (sin : Q -> Q) (PI : Q) (tm : TimingConfig)
    (sl : Slots) (typo : TypographyConfig) (anim : AnimationConfig)
    (dimsA dimsB dimsC dimsD : Dims) (t : Q) :
  balanced (paintBelowFade sin PI tm sl typo anim dimsA dimsB dimsC dimsD t).
Proof.
  unfold paintBelowFade.
  apply balanced_app; [intro cx; split; reflexivity|].
  apply balanced_app; [apply balanced_paintIntro|apply balanced_paintCollage].
Qed.

Lemma paintFrame_layers (sin : Q -> Q) (PI : Q) (tm : TimingConfig)
    (sl : Slots) (typo : TypographyConfig) (anim : AnimationConfig)
    (dimsA dimsB dimsC dimsD : Dims) (t : Q) :
  paintFrame sin PI tm sl typo anim dimsA dimsB dimsC dimsD t =
  paintBelowFade sin PI tm sl typo anim dimsA dimsB dimsC dimsD t ++
  paintFinalFade tm anim t.
Proof.
  unfold paintFrame, paintBelowFade. now rewrite <- !app_assoc.
Qed.

Lemma totalDuration_sum (tm : TimingConfig) :
  totalDuration tm ==
  t1 tm + t2 tm + t3 tm + t4 tm + tHold tm + t5 tm + t6 tm + t7 tm.
Proof. unfold totalDuration, Object_values. simpl. ring. Qed.

(** ** Final fade *)

(** C4.  [totalDuration] is the sum of all eight durations.  When
    [t > totalDuration - t7] the last primitive painted in the frame is a
    full-frame rectangle in the fade colour with opacity
    [min((t - (totalDuration - t7)) / t7, 1)], not clipped more than the
    canvas was at the start of the frame; when [t <= totalDuration - t7]
    the frame consists of the lower layers only. *)
Theorem C4_final_fade (sin : Q -> Q) (PI : Q) (tm : TimingConfig)
    (sl : Slots) (typo : TypographyConfig) (anim : AnimationConfig)
    (dimsA dimsB dimsC dimsD : Dims) (t : Q) (cx : Context2D) :
  let fadeStart := totalDuration tm - t7 tm in
  let below :=
    exec (paintBelowFade sin PI tm sl typo anim dimsA dimsB dimsC dimsD t) cx in
  let frame :=
    exec (paintFrame sin PI tm sl typo anim dimsA dimsB dimsC dimsD t) cx in
  totalDuration tm ==
    t1 tm + t2 tm + t3 tm + t4 tm + tHold tm + t5 tm + t6 tm + t7 tm /\
  ((fadeStart < t /\
    exists ds : DrawingState,
      painted frame = painted below ++ [PaintedRect ds fullFrame] /\
      fillStyle ds = fadeHex anim /\
      globalAlpha ds = Math_min (Fin (t - fadeStart) / Fin (t7 tm)) (Fin 1) /\
      clipRegion ds = clipRegion (state cx))
   \/
   (t <= fadeStart /\ painted frame = painted below)).
Proof.
  intros fadeStart below frame. split; [apply totalDuration_sum|].
  subst frame. rewrite paintFrame_layers, exec_app. fold below.
  destruct (balanced_paintBelowFade sin PI tm sl typo anim
              dimsA dimsB dimsC dimsD t cx) as [Hclip _].
  fold below in Hclip.
  unfold paintFinalFade, fadeProgress, fadeOutStartTime.
  rewrite !sub_Fin. fold fadeStart.
  destruct (Fin t >? Fin fadeStart)%num eqn:G.
  - left. apply gt_Fin in G. split; [exact G|].
    eexists. split; [reflexivity|].
    cbn [fillStyle globalAlpha clipRegion]. repeat split. exact Hclip.
  - right. apply gt_Fin_false in G. split; [exact G|]. reflexivity.
Qed.


(** ** Collage: entry and bounce *)

Lemma ct_Fin (tm : TimingConfig) (t : Q) :
  ct tm t = Fin (t - (t1 tm + t2 tm)).
Proof. reflexivity. Qed.

Lemma getBounce_Fin (sin : Q -> Q) (PI : Q) (tm : TimingConfig)
    (anim : AnimationConfig) (t delay : Q) :
  getBounce sin PI tm anim t (Fin delay) =
  let bt := t - (t1 tm + t2 tm) - t3 tm - delay in
  let bDur := t4 tm / 3 in
  if Qlt_bool bt 0 || Qlt_bool bDur bt then Fin 1
  else (Fin 1 + Math_sin sin ((Fin bt / Fin bDur) * Fin PI)
               * (Fin (bounceScale anim) - Fin 1))%num.
Proof. reflexivity. Qed.

(** Outside its window [getBounce] is exactly 1. *)
Lemma getBounce_outside (sin : Q -> Q) (PI : Q) (tm : TimingConfig)
    (anim : AnimationConfig) (t delay : Q) :
  let bt := t - (t1 tm + t2 tm) - t3 tm - delay in
  bt < 0 \/ t4 tm / 3 < bt ->
  getBounce sin PI tm anim t (Fin delay) = Fin 1.
Proof.
  intros bt H. rewrite getBounce_Fin. cbv zeta. fold bt.
  destruct H as [H|H]; apply Qlt_bool_iff in H; rewrite H.
  - reflexivity.
  - now rewrite orb_true_r.
Qed.

(** Inside its window, for a bounce phase of positive length, it is the
    sine bump. *)
Lemma getBounce_inside (sin : Q -> Q) (PI : Q) (tm : TimingConfig)
    (anim : AnimationConfig) (t delay : Q) :
  let bt := t - (t1 tm + t2 tm) - t3 tm - delay in
  let bDur := t4 tm / 3 in
  0 < t4 tm -> 0 <= bt -> bt <= bDur ->
  getBounce sin PI tm anim t (Fin delay) =
  Fin (1 + sin ((bt / bDur) * PI) * (bounceScale anim - 1)).
Proof.
  intros bt bDur H4 Hlo Hhi. rewrite getBounce_Fin. cbv zeta. fold bt bDur.
  apply Qlt_bool_false in Hlo. apply Qlt_bool_false in Hhi.
  rewrite Hlo, Hhi. cbn [orb].
  rewrite div_Fin.
  - reflexivity.
  - unfold bDur. intro E.
    assert (t4 tm == 3 * (t4 tm / 3)) by (field). lra.
Qed.

Lemma bounceDelay_nonneg (tm : TimingConfig) (p : Panel) :
  0 <= t4 tm -> 0 <= bounceDelay tm p.
Proof.
  intro H. assert (0 <= t4 tm / 3) by (apply Qle_shift_div_l; lra).
  destruct p; unfold bounceDelay; lra.
Qed.

(** What the collage layer draws, panel by panel. *)
Lemma paintCollage_panels (sin : Q -> Q) (PI : Q) (tm : TimingConfig)
    (sl : Slots) (typo : TypographyConfig) (anim : AnimationConfig)
    (dimsB dimsC dimsD : Dims) (t : Q) :
  t1 tm + t2 tm <= t ->
  paintCollage sin PI tm sl typo anim dimsB dimsC dimsD t =
  [ SetGlobalAlpha (Fin 1) ] ++
  (drawPanel SlotB 0 (xOffset (b sl)) 0 (panelScale sin PI tm anim t PanelB) dimsB ++
   drawPanel SlotC 1 (xOffset (c sl)) 0 (panelScale sin PI tm anim t PanelC) dimsC ++
   drawPanel SlotD 2 (xOffset (d sl)) 0 (panelScale sin PI tm anim t PanelD) dimsD ++
   (if (ct tm t <? Fin (t3 tm))%num then entryMasks tm t else [])) ++
  paintOverlay tm typo t.
Proof.
  intro H. unfold paintCollage.
  assert ((Fin t >=? Fin (t1 tm) + Fin (t2 tm))%num = true) as ->.
  { rewrite add_Fin. now apply ge_Fin. }
  unfold panelScale.
  destruct (ct tm t <? Fin (t3 tm))%num.
  - reflexivity.
  - unfold paintBounce. rewrite app_nil_r. reflexivity.
Qed.

(** C5.  In the collage layer panels B, C and D are drawn with the scales
    [getBounce(0)], [getBounce(t4/3)] and [getBounce(2 t4/3)] once the
    entry is over and with scale 1 before.  With [bt] the collage-local
    time measured from [t3] plus the panel's delay: outside the window
    [0 <= bt <= t4/3] the panel's scale is exactly 1, and inside it (for a
    bounce phase of positive length) it is
    [1 + sin(bt / (t4/3) * PI) * (bounceScale - 1)]. *)
Theorem C5_bounce_windows (sin : Q -> Q) (PI : Q) (tm : TimingConfig)
    (anim : AnimationConfig) (t : Q) (p : Panel) :
  let bt := t - (t1 tm + t2 tm) - t3 tm - bounceDelay tm p in
  let bDur := t4 tm / 3 in
  (bounceDelay tm PanelB == 0 /\
   bounceDelay tm PanelC == t4 tm / 3 /\
   bounceDelay tm PanelD == 2 * t4 tm / 3) /\
  (forall (sl : Slots) (typo : TypographyConfig) (dimsB dimsC dimsD : Dims),
      t1 tm + t2 tm <= t ->
      paintCollage sin PI tm sl typo anim dimsB dimsC dimsD t =
      [ SetGlobalAlpha (Fin 1) ] ++
      (drawPanel SlotB 0 (xOffset (b sl)) 0
         (panelScale sin PI tm anim t PanelB) dimsB ++
       drawPanel SlotC 1 (xOffset (c sl)) 0
         (panelScale sin PI tm anim t PanelC) dimsC ++
       drawPanel SlotD 2 (xOffset (d sl)) 0
         (panelScale sin PI tm anim t PanelD) dimsD ++
       (if (ct tm t <? Fin (t3 tm))%num then entryMasks tm t else [])) ++
      paintOverlay tm typo t) /\
  (bt < 0 \/ bDur < bt -> panelScale sin PI tm anim t p = Fin 1) /\
  (0 <= bt -> bt <= bDur ->
   panelScale sin PI tm anim t p =
   (Fin 1 + Math_sin sin ((Fin bt / Fin bDur) * Fin PI)
            * (Fin (bounceScale anim) - Fin 1))%num) /\
  (0 < t4 tm -> 0 <= bt -> bt <= bDur ->
   panelScale sin PI tm anim t p =
   Fin (1 + sin ((bt / bDur) * PI) * (bounceScale anim - 1))).
Proof.
  intros bt bDur.
  assert (Hin : 0 <= bt -> bt <= bDur ->
                (ct tm t <? Fin (t3 tm))%num = false).
  { intros Hlo Hhi.
    assert (0 <= t4 tm).
    { assert (t4 tm == 3 * bDur) by (unfold bDur; field). lra. }
    assert (0 <= bounceDelay tm p) by (now apply bounceDelay_nonneg).
    rewrite ct_Fin. apply lt_Fin_false. unfold bt in Hlo. lra. }
  split; [|split; [|split; [|split]]].
  - unfold bounceDelay. repeat split; try reflexivity. field.
  - intros. now apply paintCollage_panels.
  - intro H. unfold panelScale.
    destruct (ct tm t <? Fin (t3 tm))%num; [reflexivity|].
    now apply getBounce_outside.
  - intros Hlo Hhi. unfold panelScale. rewrite (Hin Hlo Hhi).
    rewrite getBounce_Fin. cbv zeta. fold bt bDur.
    apply Qlt_bool_false in Hlo. apply Qlt_bool_false in Hhi.
    now rewrite Hlo, Hhi.
  - intros H4 Hlo Hhi. unfold panelScale. rewrite (Hin Hlo Hhi).
    now apply getBounce_inside.
Qed.

(** While the entry runs, [ease] is the cubic ease-out of [ct / t3]. *)
Lemma ease_entry (tm : TimingConfig) (t : Q) :
  let c := t - (t1 tm + t2 tm) in
  0 <= c -> c < t3 tm ->
  ease tm t = Fin (1 - (1 - c / t3 tm) ^ 3).
Proof.
  intros c H0 H3. unfold ease, entryProgress. rewrite ct_Fin. fold c.
  rewrite div_Fin by lra.
  assert (c / t3 tm <= 1) as Hle by (apply Qle_shift_div_r; lra).
  destruct (Math_min_Fin_cases (c / t3 tm) 1) as [[_ ->]|[L _]]; [|lra].
  reflexivity.
Qed.

Lemma cube_unit_interval (x : Q) : 0 < x -> x <= 1 -> 0 < x ^ 3 /\ x ^ 3 <= 1.
Proof.
  intros H0 H1. assert (x ^ 3 == x * x * x) as -> by (simpl; ring).
  assert (0 < x * x) by nra. assert (x * x <= 1) by nra. nra.
Qed.

(** C8 (as amended).  While [0 <= ct < t3] the compositor computes
    [ease = 1 - (1 - ct/t3)^3], a number in [[0, 1)]; it draws the three
    panels where they rest (no vertical offset, scale 1, nothing that
    depends on the time) and then lays three black rectangles over them:
    a strip of width [panelWidth * (1 - ease)] along the left edge of the
    frame, a strip of height [1080 * (1 - ease)] at the top of the middle
    panel, and a strip of width [panelWidth * (1 - ease)] along the right
    edge. *)
Theorem C8_entry_masks (sin : Q -> Q) (PI : Q) (tm : TimingConfig)
    (sl : Slots) (typo : TypographyConfig) (anim : AnimationConfig)
    (dimsB dimsC dimsD : Dims) (t : Q) :
  t1 tm + t2 tm <= t ->
  t - (t1 tm + t2 tm) < t3 tm ->
  let e := 1 - (1 - (t - (t1 tm + t2 tm)) / t3 tm) ^ 3 in
  let pw := 1920 / 3 in
  ease tm t = Fin e /\
  (0 <= e /\ e < 1) /\
  paintCollage sin PI tm sl typo anim dimsB dimsC dimsD t =
    [ SetGlobalAlpha (Fin 1) ] ++
    (drawPanel SlotB 0 (xOffset (b sl)) 0 (Fin 1) dimsB ++
     drawPanel SlotC 1 (xOffset (c sl)) 0 (Fin 1) dimsC ++
     drawPanel SlotD 2 (xOffset (d sl)) 0 (Fin 1) dimsD ++
     entryMasks tm t) ++
    paintOverlay tm typo t /\
  (forall cx : Context2D,
      let ds := {| fillStyle := Hex "#000000";
                   globalAlpha := globalAlpha (state cx);
                   font := font (state cx);
                   textAlign := textAlign (state cx);
                   clipRegion := clipRegion (state cx) |} in
      painted (exec (entryMasks tm t) cx) =
      painted cx ++
      [ PaintedRect ds {| rx := Fin 0; ry := Fin 0;
                          rw := Fin (pw * (1 - e)); rh := Fin 1080 |};
        PaintedRect ds {| rx := Fin pw; ry := Fin 0;
                          rw := Fin pw; rh := Fin (1080 * (1 - e)) |};
        PaintedRect ds {| rx := Fin (1920 - pw * (1 - e)); ry := Fin 0;
                          rw := Fin (pw * (1 - e)); rh := Fin 1080 |} ]).
Proof.
  intros H1 H3 e pw.
  assert (0 <= t - (t1 tm + t2 tm)) as H0 by lra.
  pose proof (@ease_entry tm t H0 H3) as He. cbv zeta in He. fold e in He.
  split; [exact He|]. split; [|split].
  - set (x := (t - (t1 tm + t2 tm)) / t3 tm) in *.
    assert (0 <= x) by (apply Qle_shift_div_l; lra).
    assert (x < 1) by (apply Qlt_shift_div_r; lra).
    destruct (@cube_unit_interval (1 - x)) as [A B]; try lra.
    unfold e. lra.
  - rewrite paintCollage_panels by exact H1.
    unfold panelScale.
    assert ((ct tm t <? Fin (t3 tm))%num = true) as ->.
    { rewrite ct_Fin. now apply lt_Fin. }
    reflexivity.
  - intros cx ds. unfold entryMasks. rewrite He.
    unfold exec. cbn [fold_left exec1 paint with_state painted state path stack].
    rewrite <- !app_assoc. reflexivity.
Qed.

Lemma C8_entry_masks_witness :
  t1 scenario_timing + t2 scenario_timing <= 11 # 4 /\
  (11 # 4) - (t1 scenario_timing + t2 scenario_timing) < t3 scenario_timing /\
  ease scenario_timing (11 # 4) =
    Fin (1 - (1 - ((11 # 4) - (t1 scenario_timing + t2 scenario_timing))
                  / t3 scenario_timing) ^ 3).
Proof.
  split; [vm_compute; discriminate|]. split; [reflexivity|].
  apply (@C8_entry_masks (fun x => x) 3 scenario_timing
           (slots (sample_state scenario_timing)) sample_typography
           sample_animation sample_dims sample_dims sample_dims (11 # 4)).
  - vm_compute; discriminate.
  - reflexivity.
Defined.

(** C8 as worded fails: no translation is applied.  At the start of the
    entry ([ct = 0], [ease = 0]) and a quarter of a second later
    ([ease = 7/8]) the three panel images are painted at the very same
    place; only the masks differ. *)
Lemma C8_counterexample :
  let sl := slots (sample_state scenario_timing) in
  let shot (t : Q) :=
    painted (exec (paintEntry scenario_timing sl
                     sample_dims sample_dims sample_dims t) fresh_context) in
  ((ct scenario_timing (5 # 2) <? Fin (t3 scenario_timing))%num = true /\
   (ct scenario_timing (11 # 4) <? Fin (t3 scenario_timing))%num = true) /\
  ease scenario_timing (5 # 2) =n= 0 /\
  ease scenario_timing (11 # 4) =n= 7 # 8 /\
  filter is_image (shot (5 # 2)) = filter is_image (shot (11 # 4)) /\
  shot (5 # 2) <> shot (11 # 4).
Proof.
  cbv zeta. repeat split; try (vm_compute; reflexivity).
  vm_compute. discriminate.
Qed.

(** ** Fractions and zero-length phases *)

(** The intro opacity is a number in [[0, 1]] wherever it is used. *)
Lemma introOpacity_range (tm : TimingConfig) (t : Q) :
  t < t1 tm + t2 tm ->
  exists x, introOpacity tm t = Fin x /\ 0 <= x /\ x <= 1.
Proof.
  intro H. unfold introOpacity.
  destruct (Fin t <? Fin (t1 tm))%num eqn:L.
  - exists 1. split; [reflexivity|]. lra.
  - apply lt_Fin_false in L. rewrite sub_Fin, div_Fin by lra. rewrite sub_Fin.
    assert (0 <= (t - t1 tm) / t2 tm) by (apply Qle_shift_div_l; lra).
    assert ((t - t1 tm) / t2 tm < 1) by (apply Qlt_shift_div_r; lra).
    unfold Math_max, le.
    assert (Qle_bool 0 (1 - (t - t1 tm) / t2 tm) = true) as ->
      by (apply Qle_bool_iff; lra).
    eexists. split; [reflexivity|]. lra.
Qed.


(** Once the overlay has started its opacity is in [(0, 1]], also for an
    overlay fade of length zero. *)
Lemma overlayOpacity_range (tm : TimingConfig) (t : Q) :
  0 <= t5 tm -> (ot tm t >? Fin 0)%num = true ->
  exists x, overlayOpacity tm t = Fin x /\ 0 < x /\ x <= 1.
Proof.
  intros H5 Hot. unfold overlayOpacity.
  unfold ot in *. rewrite ct_Fin in *. rewrite !sub_Fin in *.
  set (o := t - (t1 tm + t2 tm) - t3 tm - t4 tm - tHold tm) in *.
  apply gt_Fin in Hot.
  unfold div. destruct (Qeq_bool (t5 tm) 0) eqn:Z.
  - assert (Qeq_bool o 0 = false) as -> by (apply Qeq_bool_false; lra).
    assert (Qlt_bool 0 o = true) as -> by (now apply Qlt_bool_iff).
    exists 1. split; [reflexivity|]. lra.
  - apply Qeq_bool_false in Z.
    assert (0 < o / t5 tm) by (apply Qlt_shift_div_l; lra).
    destruct (Math_min_Fin_cases (o / t5 tm) 1) as [[L ->]|[L ->]];
      eexists; (split; [reflexivity|]); lra.
Qed.

(** A panel drawn with a scale that is not a number has no position and
    no size. *)
Lemma drawPanel_NaN (media : SlotId) (index xOff : Q) (dims : Dims)
    (cx : Context2D) :
  exists ds,
    painted (exec (drawPanel media index xOff 0 NaN dims) cx) =
    painted cx ++
    [ PaintedImage ds media {| rx := NaN; ry := NaN; rw := NaN; rh := NaN |} ].
Proof.
  unfold drawPanel, exec.
  cbn [fold_left exec1 paint with_state painted state path stack].
  destruct (Fin (w dims) / Fin (h dims) >? panelWidth / Fin 1080)%num;
    eexists.
  - replace (Fin 1080 * NaN * (Fin (w dims) / Fin (h dims)))%num with NaN
      by (destruct (Fin (w dims) / Fin (h dims))%num; reflexivity).
    reflexivity.
  - reflexivity.
Qed.

(** C6, at the input where it fails.  With an instantaneous bounce phase
    ([t4 = 0]) and the other durations as in the sample, frame 90 of a
    standard render has [t = 3 = t1 + t2 + t3], inside the timeline; there
    [getBounce] divides 0 by 0 and the scale of every panel is [NaN], so
    the panels are painted without a size.  Likewise with an
    instantaneous entry ([t3 = 0]) the entry progress computed at
    [t = t1 + t2] is [NaN]. *)
Theorem C6_zero_length_phase_NaN (sin : Q -> Q) (PI : Q) :
  let t := frameTime standard 90 in
  (t == 3 /\ 0 <= t /\ t <= totalDuration instant_bounce_timing) /\
  (forall p : Panel,
      panelScale sin PI instant_bounce_timing sample_animation t p = NaN) /\
  map (fun pt => match pt with
                 | PaintedImage _ media r => Some (media, r)
                 | _ => None
                 end)
      (filter is_image
         (painted
            (exec (paintFrame sin PI instant_bounce_timing
                     (slots (sample_state instant_bounce_timing))
                     sample_typography sample_animation
                     sample_dims sample_dims sample_dims sample_dims t)
                  fresh_context))) =
    [ Some (SlotB, {| rx := NaN; ry := NaN; rw := NaN; rh := NaN |});
      Some (SlotC, {| rx := NaN; ry := NaN; rw := NaN; rh := NaN |});
      Some (SlotD, {| rx := NaN; ry := NaN; rw := NaN; rh := NaN |}) ] /\
  entryProgress instant_entry_timing (frameTime standard 75) = NaN.
Proof.
  cbv zeta. split; [|split; [|split]].
  - repeat split; vm_compute; try reflexivity; discriminate.
  - intros []; vm_compute; reflexivity.
  - vm_compute. reflexivity.
  - vm_compute. reflexivity.
Qed.

(** ** Render loop *)

Lemma progress_only_refl (r : RenderState) : progress_only r r.
Proof. repeat split. Qed.

Lemma progress_only_trans (r1 r2 r3 : RenderState) :
  progress_only r1 r2 -> progress_only r2 r3 -> progress_only r1 r3.
Proof.
  unfold progress_only. intros (A1 & A2 & A3 & A4 & A5) (B1 & B2 & B3 & B4 & B5).
  repeat split; congruence.
Qed.

Lemma release_released (el : Media) : released (release el).
Proof. destruct el; simpl; auto. Qed.

Section LoopFacts.

Variable sin : Q -> Q.
Variable PI : Q.
Variable host : Host.
Variable st : AppState.
Variables dimsA dimsB dimsC dimsD : Dims.

Let step := frameStep sin PI host st dimsA dimsB dimsC dimsD.
Let loop := frameLoop sin PI host st dimsA dimsB dimsC dimsD.

(** An iteration that finds the flag set throws at its check and does
    nothing else. *)
Lemma frameStep_stop (p : Pipeline) (frame : nat) :
  stopRequestedAt host frame = true ->
  step p frame = Thrown (Some stopMessage) p.
Proof.
  intro H. unfold step, frameStep. now rewrite H.
Qed.

(** Otherwise, if encoding does not fail, the iteration finishes, has
    submitted one more frame and has touched nothing of the component
    state but the progress. *)
Lemma frameStep_ok (p : Pipeline) (frame : nat) :
  stopRequestedAt host frame = false ->
  encodeFault host frame = None ->
  exists p', step p frame = Finished p' /\
             progress_only (app p) (app p') /\
             List.length (submitted p') = S (List.length (submitted p)) /\
             (reportsProgress frame (totalFrames (timing st) (quality st)) = true ->
              renderProgress (app p') =
              progressValue frame (totalFrames (timing st) (quality st))).
Proof.
  intros Hs He. unfold step, frameStep. rewrite Hs, He.
  eexists. split; [reflexivity|]. cbn [app submitted]. split; [|split].
  - destruct (reportsProgress _ _); repeat split.
  - rewrite length_app. simpl. lia.
  - intros ->. reflexivity.
Qed.

Lemma frameLoop_cancel (k : nat) :
  forall (n frame : nat) (p : Pipeline),
    (k < n)%nat ->
    (forall j, (j < k)%nat ->
               stopRequestedAt host (frame + j) = false /\
               encodeFault host (frame + j) = None) ->
    stopRequestedAt host (frame + k) = true ->
    exists p', loop n frame p = Thrown (Some stopMessage) p' /\
               progress_only (app p) (app p') /\
               List.length (submitted p') = (List.length (submitted p) + k)%nat.
Proof.
  induction k as [|k IH]; intros n frame p Hn Hbefore Hstop.
  - destruct n as [|n]; [lia|].
    rewrite Nat.add_0_r in Hstop.
    exists p. unfold loop. cbn [frameLoop].
    fold step. rewrite (@frameStep_stop p frame Hstop).
    split; [reflexivity|]. split; [apply progress_only_refl|lia].
  - destruct n as [|n]; [lia|].
    destruct (Hbefore 0%nat ltac:(lia)) as [Hs He].
    rewrite Nat.add_0_r in Hs, He.
    destruct (@frameStep_ok p frame Hs He) as (p1 & Hstep & Hprog & Hlen & _).
    destruct (IH n (S frame) p1) as (p' & Hloop & Hprog' & Hlen').
    + lia.
    + intros j Hj. replace (S frame + j)%nat with (frame + S j)%nat by lia.
      apply Hbefore. lia.
    + replace (S frame + k)%nat with (frame + S k)%nat by lia. exact Hstop.
    + exists p'. unfold loop. cbn [frameLoop]. fold step. rewrite Hstep.
      fold loop. rewrite Hloop.
      split; [reflexivity|]. split.
      * eapply progress_only_trans; eassumption.
      * lia.
Qed.

(** A loop that is neither stopped nor hit by a fault runs all its
    iterations, submits one frame per iteration, and leaves the progress
    of its last iteration when that iteration reports. *)
Lemma frameLoop_complete (n : nat) :
  forall (frame : nat) (p : Pipeline),
    (forall j, (j < n)%nat ->
               stopRequestedAt host (frame + j) = false /\
               encodeFault host (frame + j) = None) ->
    exists p', loop n frame p = Finished p' /\
               progress_only (app p) (app p') /\
               List.length (submitted p') = (List.length (submitted p) + n)%nat /\
               ((0 < n)%nat ->
                reportsProgress (frame + n - 1)
                  (totalFrames (timing st) (quality st)) = true ->
                renderProgress (app p') =
                progressValue (frame + n - 1)
                  (totalFrames (timing st) (quality st))).
Proof.
  induction n as [|n IH]; intros frame p Hquiet.
  - exists p. split; [reflexivity|]. split; [apply progress_only_refl|].
    split; [lia|]. intro H. lia.
  - destruct (Hquiet 0%nat ltac:(lia)) as [Hs He].
    rewrite Nat.add_0_r in Hs, He.
    destruct (@frameStep_ok p frame Hs He) as (p1 & Hstep & Hprog & Hlen & Hrep).
    destruct (IH (S frame) p1) as (p' & Hloop & Hprog' & Hlen' & Hrep').
    { intros j Hj. replace (S frame + j)%nat with (frame + S j)%nat by lia.
      apply Hquiet. lia. }
    exists p'. unfold loop. cbn [frameLoop]. fold step. rewrite Hstep.
    fold loop. rewrite Hloop.
    split; [reflexivity|]. split; [eapply progress_only_trans; eassumption|].
    split; [lia|]. intros _ Hr.
    destruct n as [|n].
    + unfold loop in Hloop. cbn [frameLoop] in Hloop.
      injection Hloop as <-.
      replace (frame + 1 - 1)%nat with frame in * by lia. now apply Hrep.
    + replace (frame + S (S n) - 1)%nat with (S frame + S n - 1)%nat in * by lia.
      apply Hrep'; [lia|exact Hr].
Qed.

End LoopFacts.

Unset Implicit Arguments.

(** C3.  If the stop flag is first seen set by iteration [k <=
    totalFrames] (and no earlier iteration failed), the call ends with
    status [idle] and no error message, no finalized buffer and no URL,
    [isPlaying] off, the encoder closed, exactly the [k] frames before
    the stop submitted, and every video element paused, emptied and out
    of the document. *)
Theorem C3_cancellation (sin : Q -> Q) (PI : Q) (host : Host) (st : AppState)
    (r : RenderState) (els : MediaElements) (cx : Context2D) (k : nat) :
  hasCanvas host = true ->
  hasVideoEncoder host = true ->
  loaded host = Some els ->
  context host = Some cx ->
  (Z.of_nat k <= totalFrames (timing st) (quality st))%Z ->
  (forall j, (j < k)%nat ->
             stopRequestedAt host j = false /\ encodeFault host j = None) ->
  stopRequestedAt host k = true ->
  let res := startRecording sin PI host st r in
  renderStatus (final res) = idle /\
  renderError (final res) = None /\
  recordedUrl (final res) = None /\
  isPlaying (final res) = false /\
  videoEncoder res = Some closed /\
  List.length (encoded res) = k /\
  exists m, elements res = Some m /\
            released (mediaA m) /\ released (mediaB m) /\
            released (mediaC m) /\ released (mediaD m).
Proof.
  intros Hcanvas Henc Hload Hctx Hk Hbefore Hstop res.
  subst res. unfold startRecording.
  rewrite Hcanvas, Henc, Hload, Hctx. cbn [negb].
  unfold runFrames.
  set (p0 := Build_Pipeline _ els cx []).
  destruct (@frameLoop_cancel sin PI host st
              (getMediaDims (mediaA els)) (getMediaDims (mediaB els))
              (getMediaDims (mediaC els)) (getMediaDims (mediaD els))
              k (Z.to_nat (totalFrames (timing st) (quality st) + 1)) 0%nat p0)
    as (p' & Hloop & (P1 & P2 & P3 & P4 & P5) & Hlen).
  - lia.
  - intros j Hj. now apply Hbefore.
  - exact Hstop.
  - rewrite Hloop. cbn [final elements videoEncoder encoded].
    unfold handleError. cbn [String.eqb].
    assert (String.eqb stopMessage stopMessage = true) as -> by reflexivity.
    cbn [renderStatus renderError recordedUrl isPlaying].
    rewrite P2, P3. do 5 (split; [reflexivity|]).
    split; [rewrite Hlen; reflexivity|].
    exists (releaseAll (media p')). split; [reflexivity|].
    unfold releaseAll. cbn [mediaA mediaB mediaC mediaD].
    repeat split; apply release_released.
Qed.

Set Implicit Arguments.

Lemma C3_cancellation_witness :
  let host := stopping_host 3 in
  let st := sample_state scenario_timing in
  let res := startRecording (fun x => x) 3 host st initial_render_state in
  (Z.of_nat 3 <= totalFrames (timing st) (quality st))%Z /\
  stopRequestedAt host 3 = true /\
  renderStatus (final res) = idle /\
  renderError (final res) = None /\
  recordedUrl (final res) = None /\
  isPlaying (final res) = false /\
  videoEncoder res = Some closed /\
  List.length (encoded res) = 3%nat /\
  exists m, elements res = Some m /\
            released (mediaA m) /\ released (mediaB m) /\
            released (mediaC m) /\ released (mediaD m).
Proof.
  cbv zeta. split; [vm_compute; discriminate|]. split; [reflexivity|].
  apply (@C3_cancellation (fun x => x) 3 (stopping_host 3)
           (sample_state scenario_timing) initial_render_state
           sample_media fresh_context 3).
  - reflexivity.
  - reflexivity.
  - reflexivity.
  - reflexivity.
  - vm_compute; discriminate.
  - intros j Hj. split; [|reflexivity].
    change (stopRequestedAt (stopping_host 3) j) with (3 <=? j)%nat.
    apply Nat.leb_gt. exact Hj.
  - reflexivity.
Defined.

(** ** Progress *)

Lemma of_nat_nonneg (n : nat) : 0 <= of_nat n.
Proof.
  unfold of_nat. change 0 with (inject_Z 0). rewrite <- Zle_Qle. lia.
Qed.

Lemma of_nat_le (n m : nat) : (n <= m)%nat -> of_nat n <= of_nat m.
Proof.
  intro H. unfold of_nat. rewrite <- Zle_Qle. lia.
Qed.

Lemma progressValue_Fin (frame : nat) (total : Z) :
  (0 < total)%Z ->
  progressValue frame total = Fin (of_nat frame / inject_Z total * 100).
Proof.
  intro H. unfold progressValue. rewrite div_Fin; [reflexivity|].
  intro E. assert (0 < inject_Z total).
  { change 0 with (inject_Z 0). rewrite <- Zlt_Qlt. exact H. }
  lra.
Qed.

(** With at least one frame interval to render, the progress value is a
    percentage, grows with the frame number and is exactly 100 at the
    last frame, which always reports. *)
Lemma progress_positive_totalFrames (total : Z) :
  (0 < total)%Z ->
  (forall frame, (Z.of_nat frame <= total)%Z ->
      exists x, progressValue frame total = Fin x /\ 0 <= x /\ x <= 100) /\
  (forall f1 f2, (f1 <= f2)%nat ->
      exists x y, progressValue f1 total = Fin x /\
                  progressValue f2 total = Fin y /\ x <= y) /\
  progressValue (Z.to_nat total) total =n= Fin 100 /\
  reportsProgress (Z.to_nat total) total = true.
Proof.
  intro H.
  assert (0 < inject_Z total) as Hq.
  { change 0 with (inject_Z 0). rewrite <- Zlt_Qlt. exact H. }
  split; [|split; [|split]].
  - intros frame Hf. rewrite progressValue_Fin by exact H.
    eexists. split; [reflexivity|].
    pose proof (of_nat_nonneg frame).
    assert (of_nat frame <= inject_Z total).
    { unfold of_nat. rewrite <- Zle_Qle. exact Hf. }
    assert (0 <= of_nat frame / inject_Z total) by (apply Qle_shift_div_l; lra).
    assert (of_nat frame / inject_Z total <= 1) by (apply Qle_shift_div_r; lra).
    lra.
  - intros f1 f2 Hle. rewrite !progressValue_Fin by exact H.
    do 2 eexists. split; [reflexivity|]. split; [reflexivity|].
    pose proof (of_nat_le Hle).
    assert (of_nat f1 / inject_Z total <= of_nat f2 / inject_Z total).
    { apply Qle_shift_div_l; [exact Hq|].
      assert (of_nat f1 / inject_Z total * inject_Z total == of_nat f1)
        as -> by (field; lra).
      exact H0. }
    lra.
  - rewrite progressValue_Fin by exact H. simpl. unfold of_nat.
    rewrite Z2Nat.id by lia. field. lra.
  - unfold reportsProgress. rewrite Z2Nat.id by lia.
    rewrite Z.eqb_refl. apply orb_true_r.
Qed.

(** C7, at the input where it fails.  With every duration 0 the timeline
    has [totalFrames = 0]; the single iteration (frame 0, the final
    frame) reports [0 / 0 * 100], which is [NaN]: not a percentage and
    not 100.  The render completes with that value as its progress. *)
Theorem C7_progress_zero_frames (sin : Q -> Q) (PI : Q) :
  let st := sample_state zero_timing in
  let res := startRecording sin PI quiet_host st initial_render_state in
  totalFrames (timing st) (quality st) = 0%Z /\
  reportsProgress 0 0 = true /\
  progressValue 0 0 = NaN /\
  renderStatus (final res) = completed /\
  renderProgress (final res) = NaN /\
  List.length (encoded res) = 1%nat.
Proof.
  cbv zeta. repeat split; vm_compute; reflexivity.
Qed.

Unset Implicit Arguments.

(** A render that is neither stopped nor hit by a fault completes: it
    exposes the finalized buffer with one frame per iteration, and, when
    there is at least one frame interval, its last report is 100. *)
Lemma startRecording_completes (sin : Q -> Q) (PI : Q) (host : Host)
    (st : AppState) (r : RenderState) (els : MediaElements) (cx : Context2D) :
  hasCanvas host = true ->
  hasVideoEncoder host = true ->
  loaded host = Some els ->
  context host = Some cx ->
  (forall j, stopRequestedAt host j = false /\ encodeFault host j = None) ->
  (0 < totalFrames (timing st) (quality st))%Z ->
  let res := startRecording sin PI host st r in
  renderStatus (final res) = completed /\
  recordedUrl (final res) = Some (encoded res) /\
  Z.of_nat (List.length (encoded res)) =
    (totalFrames (timing st) (quality st) + 1)%Z /\
  renderProgress (final res) =n= Fin 100.
Proof.
  intros Hcanvas Henc Hload Hctx Hquiet Hpos res.
  subst res. unfold startRecording.
  rewrite Hcanvas, Henc, Hload, Hctx. cbn [negb].
  unfold runFrames.
  set (total := totalFrames (timing st) (quality st)) in *.
  set (p0 := Build_Pipeline _ els cx []).
  destruct (@frameLoop_complete sin PI host st
              (getMediaDims (mediaA els)) (getMediaDims (mediaB els))
              (getMediaDims (mediaC els)) (getMediaDims (mediaD els))
              (Z.to_nat (total + 1)) 0%nat p0)
    as (p' & Hloop & _ & Hlen & Hrep).
  { intros j _. apply Hquiet. }
  rewrite Hloop. cbn [final encoded renderStatus recordedUrl renderProgress].
  destruct (progress_positive_totalFrames Hpos) as (_ & _ & Hfinal & Hreports).
  fold total in Hrep.
  replace (0 + Z.to_nat (total + 1) - 1)%nat with (Z.to_nat total) in Hrep by lia.
  split; [reflexivity|]. split; [reflexivity|]. split.
  - rewrite Hlen. cbn [submitted p0 List.length]. lia.
  - rewrite Hrep; [exact Hfinal|lia|exact Hreports].
Qed.

Set Implicit Arguments.

(** * Further properties of the component *)

Unset Implicit Arguments.

(** ** Cover-fit of the panels and of the intro background *)

(** The image [drawPanel] paints, for a medium of positive size and a
    finite scale. *)
Lemma drawPanel_image (media : SlotId) (index xOff yOff s : Q) (dims : Dims)
    (cx : Context2D) :
  0 < w dims -> 0 < h dims ->
  let wide := Qlt_bool ((1920 / 3) / 1080) (w dims / h dims) in
  let W := if wide then 1080 * s * (w dims / h dims) else 1920 / 3 * s in
  let H := if wide then 1080 * s else 1920 / 3 * s / (w dims / h dims) in
  exec (drawPanel media index xOff yOff (Fin s) dims) cx =
  {| state := state cx;
     path := [ {| rx := Fin (index * (1920 / 3)); ry := Fin 0;
                  rw := Fin (1920 / 3); rh := Fin 1080 |} ];
     stack := stack cx;
     painted := painted cx ++
       [ PaintedImage
           {| fillStyle := fillStyle (state cx);
              globalAlpha := globalAlpha (state cx);
              font := font (state cx);
              textAlign := textAlign (state cx);
              clipRegion := clipRegion (state cx) ++
                [ {| rx := Fin (index * (1920 / 3)); ry := Fin 0;
                     rw := Fin (1920 / 3); rh := Fin 1080 |} ] |}
           media
           {| rx := Fin (index * (1920 / 3) - (W - 1920 / 3) * (xOff / 100));
              ry := Fin ((1080 - H) / 2 + yOff);
              rw := Fin W; rh := Fin H |} ] |}.
Proof.
  intros Hw Hh wide W H.
  assert (Ha : 0 < w dims / h dims) by (apply Qlt_shift_div_l; lra).
  unfold drawPanel, exec.
  cbn [fold_left exec1 paint with_state painted state path stack app].
  unfold panelWidth.
  rewrite !(@div_Fin (w dims) (h dims)) by lra.
  change (Fin 1920 / Fin 3)%num with (Fin (1920 / 3)).
  change (Fin (1920 / 3) / Fin 1080)%num with (Fin ((1920 / 3) / 1080)).
  unfold gt, lt. fold wide.
  rewrite !mul_Fin.
  rewrite !(@div_Fin (1920 / 3 * s) (w dims / h dims)) by lra.
  subst W H. destruct wide; reflexivity.
Qed.

(** A panel drawn at a scale of at least 1 is covered by its image: the
    image keeps the medium's aspect ratio, is centred vertically, reaches
    beyond the panel on every side for any pan between 0 and 100, is
    flush left at pan 0 and flush right at pan 100, and is clipped to the
    panel. *)
Theorem drawPanel_covers_panel (media : SlotId) (index xOff s : Q)
    (dims : Dims) (cx : Context2D) :
  0 < w dims -> 0 < h dims -> 1 <= s -> 0 <= xOff -> xOff <= 100 ->
  let pw := 1920 / 3 in
  let panel := {| rx := Fin (index * pw); ry := Fin 0;
                  rw := Fin pw; rh := Fin 1080 |} in
  exists (x y W H : Q) (ds : DrawingState),
    painted (exec (drawPanel media index xOff 0 (Fin s) dims) cx) =
      painted cx ++
      [ PaintedImage ds media
          {| rx := Fin x; ry := Fin y; rw := Fin W; rh := Fin H |} ] /\
    clipRegion ds = clipRegion (state cx) ++ [ panel ] /\
    globalAlpha ds = globalAlpha (state cx) /\
    W * h dims == H * w dims /\
    x <= index * pw /\ (index + 1) * pw <= x + W /\
    y <= 0 /\ 1080 <= y + H /\ y + H / 2 == 540 /\
    (xOff == 0 -> x == index * pw) /\
    (xOff == 100 -> x + W == (index + 1) * pw).
Proof.
  intros Hw Hh Hs Hx0 Hx1 pw panel.
  rewrite (@drawPanel_image media index xOff 0 s dims cx Hw Hh). cbv zeta.
  set (a := w dims / h dims).
  assert (Ha : 0 < a) by (apply Qlt_shift_div_l; lra).
  assert (Hah : a * h dims == w dims) by (unfold a; field; lra).
  set (wide := Qlt_bool (1920 / 3 / 1080) a).
  set (W := if wide then 1080 * s * a else 1920 / 3 * s).
  set (H := if wide then 1080 * s else 1920 / 3 * s / a).
  assert (HW : 1920 / 3 <= W /\ 1080 <= H /\ W * h dims == H * w dims).
  { unfold W, H. destruct wide eqn:E; unfold wide in E.
    - apply Qlt_bool_iff in E.
      assert (1920 / 3 / 1080 == 16 # 27) as E1 by reflexivity.
      rewrite E1 in E. repeat split.
      + assert (1920 / 3 == 640) as -> by reflexivity. nra.
      + nra.
      + rewrite <- Hah. ring.
    - apply Qlt_bool_false in E.
      assert (1920 / 3 / 1080 == 16 # 27) as E1 by reflexivity.
      rewrite E1 in E.
      assert (1920 / 3 == 640) as E2 by reflexivity.
      repeat split.
      + rewrite E2. nra.
      + apply Qle_shift_div_l; [exact Ha|]. rewrite E2. nra.
      + rewrite <- Hah. field. lra. }
  destruct HW as (HW1 & HH1 & Hasp).
  cbn [painted].
  exists (index * (1920 / 3) - (W - 1920 / 3) * (xOff / 100)),
         ((1080 - H) / 2 + 0), W, H.
  eexists. split; [reflexivity|].
  cbn [clipRegion globalAlpha].
  split; [reflexivity|]. split; [reflexivity|]. split; [exact Hasp|].
  assert (Hf : xOff / 100 == xOff * (1 # 100)) by field.
  assert (Hy : (1080 - H) / 2 + 0 == (1080 - H) * (1 # 2)) by field.
  assert (Hh2 : H / 2 == H * (1 # 2)) by field.
  unfold pw in *. rewrite Hf, Hy, Hh2.
  assert (Hov : 0 <= (W - 1920 / 3) * (xOff * (1 # 100))) by nra.
  assert (Hov' : (W - 1920 / 3) * (xOff * (1 # 100)) <= W - 1920 / 3) by nra.
  split; [lra|]. split; [lra|]. split; [lra|]. split; [lra|].
  split; [lra|]. split.
  - intro Z. rewrite Z. ring.
  - intro Z. rewrite Z. field.
Qed.

Lemma drawPanel_covers_panel_witness :
  0 < w sample_dims /\ 0 < h sample_dims /\ 1 <= 1 /\ 0 <= 50 /\ 50 <= 100 /\
  exists (x y W H : Q) (ds : DrawingState),
    painted (exec (drawPanel SlotC 1 50 0 (Fin 1) sample_dims) fresh_context) =
      painted fresh_context ++
      [ PaintedImage ds SlotC
          {| rx := Fin x; ry := Fin y; rw := Fin W; rh := Fin H |} ] /\
    clipRegion ds = clipRegion (state fresh_context) ++
      [ {| rx := Fin (1 * (1920 / 3)); ry := Fin 0;
           rw := Fin (1920 / 3); rh := Fin 1080 |} ] /\
    globalAlpha ds = globalAlpha (state fresh_context) /\
    W * h sample_dims == H * w sample_dims /\
    x <= 1 * (1920 / 3) /\ (1 + 1) * (1920 / 3) <= x + W /\
    y <= 0 /\ 1080 <= y + H /\ y + H / 2 == 540 /\
    (50 == 0 -> x == 1 * (1920 / 3)) /\
    (50 == 100 -> x + W == (1 + 1) * (1920 / 3)).
Proof.
  split; [reflexivity|]. split; [reflexivity|].
  split; [vm_compute; discriminate|]. split; [vm_compute; discriminate|].
  split; [vm_compute; discriminate|].
  apply (@drawPanel_covers_panel SlotC 1 50 1 sample_dims fresh_context);
    try reflexivity; vm_compute; discriminate.
Defined.



(** ** Overlay text *)

Lemma split_newline_not_nil (s cur : string) : split_newline s cur <> [].
Proof.
  revert cur. induction s as [|ch rest IH]; intro cur; simpl.
  - discriminate.
  - destruct (Ascii.eqb ch "010"%char); [discriminate|apply IH].
Qed.

Lemma split_newline_concat (s cur : string) :
  String.concat (String "010"%char EmptyString) (split_newline s cur)
  = (cur ++ s)%string.
Proof.
  revert cur. induction s as [|ch rest IH]; intro cur.
  - simpl. induction cur; simpl; congruence.
  - cbn [split_newline]. destruct (Ascii.eqb ch "010"%char) eqn:E.
    + apply Ascii.eqb_eq in E. subst ch.
      pose proof (split_newline_not_nil rest EmptyString) as Hne.
      cbn [String.concat].
      destruct (split_newline rest EmptyString) as [|l ls] eqn:Hs;
        [contradiction|].
      rewrite <- Hs, IH. reflexivity.
    + rewrite IH. clear. induction cur; simpl; congruence.
Qed.

Lemma split_newline_clean (s cur : string) :
  ~ In "010"%char (list_ascii_of_string cur) ->
  Forall (fun l => ~ In "010"%char (list_ascii_of_string l))
         (split_newline s cur).
Proof.
  revert cur. induction s as [|ch rest IH]; intros cur Hcur.
  - constructor; [exact Hcur|constructor].
  - cbn [split_newline]. destruct (Ascii.eqb ch "010"%char) eqn:E.
    + constructor; [exact Hcur|]. apply IH. simpl. tauto.
    + apply IH. apply Ascii.eqb_neq in E.
      clear IH. induction cur as [|x cur IHc]; simpl in *.
      * intros [H|[]]. congruence.
      * intros [H|H]; [tauto|]. apply IHc; tauto.
Qed.

(** Splitting the overlay text into lines loses nothing: there is always
    at least one line, no line contains a line feed, and joining the
    lines with line feeds gives the text back. *)
Theorem split_lines_roundtrip (s : string) :
  split_lines s <> [] /\
  Forall (fun l => ~ In "010"%char (list_ascii_of_string l)) (split_lines s) /\
  String.concat (String "010"%char EmptyString) (split_lines s) = s.
Proof.
  unfold split_lines. split; [apply split_newline_not_nil|]. split.
  - apply split_newline_clean. simpl. tauto.
  - apply split_newline_concat.
Qed.

Lemma exec_FillText_map (A : Type) (line : A -> string) (x y : A -> num)
    (ls : list A) (cx : Context2D) :
  exec (map (fun li => FillText (line li) (x li) (y li)) ls) cx =
  {| state := state cx; path := path cx; stack := stack cx;
     painted := painted cx ++
                map (fun li => PaintedText (state cx) (line li) (x li) (y li)) ls |}.
Proof.
  revert cx. induction ls as [|li ls IH]; intro cx.
  - simpl. rewrite app_nil_r. destruct cx; reflexivity.
  - change (exec (map _ (li :: ls)) cx)
      with (exec (map (fun li => FillText (line li) (x li) (y li)) ls)
                 (exec1 cx (FillText (line li) (x li) (y li)))).
    rewrite IH. cbn [exec1 paint state path stack painted map].
    rewrite <- app_assoc. reflexivity.
Qed.

(** Once the overlay has started ([ot > 0]) and for a non-negative fade
    length, the overlay layer paints a full-frame black scrim whose alpha
    is 0.4 times the overlay opacity [o], with [0 < o <= 1], and then one
    text per line of the content, all at the anchor of the alignment
    (960 centred, 200 left, 1720 right), in the configured colour, at 1.5
    times the font size, with opacity [o]; line [i] of [n] is at
    [540 - n*lh/2 + lh/2 + i*lh] with [lh = 1.5 * fontSize], so lines [i]
    and [n-1-i] are mirror images about the middle of the frame.  The
    drawing state is as before afterwards. *)
Theorem paintOverlay_layout (tm : TimingConfig) (typo : TypographyConfig)
    (t : Q) (cx : Context2D) :
  0 <= t5 tm ->
  0 < t - (t1 tm + t2 tm) - t3 tm - t4 tm - tHold tm ->
  let lines := split_lines (content typo) in
  let n := List.length lines in
  let lh := fontSize typo * 1.5 in
  let y := fun i : nat => 540 - of_nat n * lh / 2 + lh / 2 + of_nat i * lh in
  let anchor : Q := match align typo with
                    | center => 960 | left => 200 | right => 1720
                    end in
  exists o : Q,
    0 < o /\ o <= 1 /\
    overlayOpacity tm t = Fin o /\
    painted (exec (paintOverlay tm typo t) cx) =
      painted cx ++
      PaintedRect {| fillStyle := Rgba 0 0 0 (Fin (o * 0.4));
                     globalAlpha := globalAlpha (state cx);
                     font := font (state cx);
                     textAlign := textAlign (state cx);
                     clipRegion := clipRegion (state cx) |} fullFrame ::
      map (fun li =>
             PaintedText {| fillStyle := Hex (color typo);
                            globalAlpha := Fin o;
                            font := (Fin lh, fontFamily typo);
                            textAlign := align typo;
                            clipRegion := clipRegion (state cx) |}
                         (snd li) (Fin anchor) (Fin (y (fst li))))
          (combine (seq 0 n) lines) /\
    state (exec (paintOverlay tm typo t) cx) = state cx /\
    (forall i, (i < n)%nat -> y i + y (n - 1 - i)%nat == 1080).
Proof.
  intros H5 Hot lines n lh y anchor.
  assert (Hgt : (ot tm t >? Fin 0)%num = true).
  { unfold ot. rewrite ct_Fin, !sub_Fin. now apply gt_Fin. }
  destruct (@overlayOpacity_range tm t H5 Hgt) as (o & Ho & Ho0 & Ho1).
  exists o. split; [exact Ho0|]. split; [exact Ho1|]. split; [exact Ho|].
  unfold paintOverlay. rewrite Hgt, Ho. cbv zeta.
  fold lines. fold n.
  assert (Hx : match align typo with
               | left => Fin 200 | center => Fin 960 | right => Fin 1720
               end = Fin anchor) by (unfold anchor; destruct (align typo); reflexivity).
  rewrite Hx.
  rewrite !exec_app.
  rewrite (@exec_FillText_map (nat * string) (fun li => snd li)
             (fun _ => Fin anchor)
             (fun li => (Fin 540 - Fin (of_nat n) * (Fin (fontSize typo) * Fin 1.5) / Fin 2
                         + Fin (fontSize typo) * Fin 1.5 / Fin 2
                         + Fin (of_nat (fst li)) * (Fin (fontSize typo) * Fin 1.5))%num)).
  unfold exec.
  cbn [fold_left exec1 paint with_state painted state path stack].
  split; [|split].
  - rewrite <- app_assoc. reflexivity.
  - reflexivity.
  - intros i Hi. unfold y.
    assert (of_nat (n - 1 - i) == of_nat n - 1 - of_nat i) as ->.
    { unfold of_nat.
      replace (Z.of_nat (n - 1 - i)) with (Z.of_nat n + -1 + - Z.of_nat i)%Z
        by lia.
      rewrite !inject_Z_plus, inject_Z_opp. ring. }
    field.
Qed.

Lemma paintOverlay_layout_witness :
  0 <= t5 scenario_timing /\
  0 < 6 - (t1 scenario_timing + t2 scenario_timing) - t3 scenario_timing
      - t4 scenario_timing - tHold scenario_timing /\
  exists o : Q,
    0 < o /\ o <= 1 /\ overlayOpacity scenario_timing 6 = Fin o.
Proof.
  split; [vm_compute; discriminate|]. split; [reflexivity|].
  destruct (@paintOverlay_layout scenario_timing sample_typography 6
              fresh_context) as (o & H0 & H1 & Ho & _).
  - vm_compute; discriminate.
  - reflexivity.
  - exists o. split; [exact H0|]. split; [exact H1|]. exact Ho.
Defined.

(** ** Frames are self-contained *)

Lemma self_contained_nil : self_contained [].
Proof.
  intros cx cx' H. exists []. rewrite !app_nil_r. repeat split. exact H.
Qed.

Lemma self_contained_app (l1 l2 : list Cmd) :
  self_contained l1 -> self_contained l2 -> self_contained (l1 ++ l2).
Proof.
  intros H1 H2 cx cx' H. rewrite !exec_app.
  destruct (H1 cx cx' H) as (ps1 & A1 & B1 & S1).
  destruct (H2 (exec l1 cx) (exec l1 cx') S1) as (ps2 & A2 & B2 & S2).
  exists (ps1 ++ ps2). rewrite A2, B2, A1, B1, <- !app_assoc.
  repeat split. exact S2.
Qed.

Lemma self_contained_if (cnd : bool) (l1 l2 : list Cmd) :
  self_contained l1 -> self_contained l2 ->
  self_contained (if cnd then l1 else l2).
Proof. destruct cnd; auto. Qed.

(** A block that computes to "same state, some paint appended". *)
Ltac self_contained_block :=
  let cx := fresh "cx" in
  let cx' := fresh "cx" in
  let H := fresh "H" in
  intros cx cx' H; unfold exec;
  cbn [fold_left exec1 paint with_state painted state path stack];
  rewrite <- ?H, <- ?app_assoc;
  first [ eexists; split; [reflexivity|]; split; reflexivity
        | exists []; rewrite !app_nil_r;
          split; [reflexivity|]; split; reflexivity ].

Lemma self_contained_drawPanel (media : SlotId) (index xOff yOff : Q)
    (scale : num) (dims : Dims) :
  self_contained (drawPanel media index xOff yOff scale dims).
Proof. unfold drawPanel. self_contained_block. Qed.

Lemma self_contained_paintIntro (tm : TimingConfig) (dimsA : Dims) (t : Q) :
  self_contained (paintIntro tm dimsA t).
Proof.
  unfold paintIntro. apply self_contained_if; [|apply self_contained_nil].
  self_contained_block.
Qed.

Lemma self_contained_entryMasks (tm : TimingConfig) (t : Q) :
  self_contained (entryMasks tm t).
Proof. unfold entryMasks. self_contained_block. Qed.

Lemma self_contained_paintEntry (tm : TimingConfig) (sl : Slots)
    (dimsB dimsC dimsD : Dims) (t : Q) :
  self_contained (paintEntry tm sl dimsB dimsC dimsD t).
Proof.
  unfold paintEntry.
  repeat (apply self_contained_app; [apply self_contained_drawPanel|]).
  apply self_contained_entryMasks.
Qed.

Lemma self_contained_paintBounce (sin : Q -> Q) (PI : Q) (tm : TimingConfig)
    (sl : Slots) (anim : AnimationConfig) (dimsB dimsC dimsD : Dims) (t : Q) :
  self_contained (paintBounce sin PI tm sl anim dimsB dimsC dimsD t).
Proof.
  unfold paintBounce.
  repeat (apply self_contained_app; [apply self_contained_drawPanel|]).
  apply self_contained_drawPanel.
Qed.

Lemma self_contained_paintOverlay (tm : TimingConfig) (typo : TypographyConfig)
    (t : Q) :
  self_contained (paintOverlay tm typo t).
Proof.
  unfold paintOverlay. apply self_contained_if; [|apply self_contained_nil].
  intros cx cx' H. cbv zeta. rewrite !exec_app.
  match goal with
  | |- context [map (fun li => FillText (snd li) ?x (@?y li)) ?ls] =>
      rewrite !(@exec_FillText_map (nat * string) (fun li => snd li)
                  (fun _ => x) y ls)
  end.
  unfold exec.
  cbn [fold_left exec1 paint with_state painted state path stack].
  rewrite <- H. eexists. split; [|split].
  - rewrite <- app_assoc. reflexivity.
  - rewrite <- app_assoc. reflexivity.
  - reflexivity.
Qed.

Lemma self_contained_paintCollage (sin : Q -> Q) (PI : Q) (tm : TimingConfig)
    (sl : Slots) (typo : TypographyConfig) (anim : AnimationConfig)
    (dimsB dimsC dimsD : Dims) (t : Q) :
  self_contained (paintCollage sin PI tm sl typo anim dimsB dimsC dimsD t).
Proof.
  unfold paintCollage. apply self_contained_if; [|apply self_contained_nil].
  apply self_contained_app; [self_contained_block|].
  apply self_contained_app; [|apply self_contained_paintOverlay].
  apply self_contained_if;
    [apply self_contained_paintEntry|apply self_contained_paintBounce].
Qed.

Lemma self_contained_paintFinalFade (tm : TimingConfig) (anim : AnimationConfig)
    (t : Q) :
  self_contained (paintFinalFade tm anim t).
Proof.
  unfold paintFinalFade. apply self_contained_if; [|apply self_contained_nil].
  self_contained_block.
Qed.

Lemma self_contained_paintFrame (sin : Q -> Q) (PI : Q) (tm : TimingConfig)
    (sl : Slots) (typo : TypographyConfig) (anim : AnimationConfig)
    (dimsA dimsB dimsC dimsD : Dims) (t : Q) :
  self_contained (paintFrame sin PI tm sl typo anim dimsA dimsB dimsC dimsD t).
Proof.
  unfold paintFrame.
  apply self_contained_app; [self_contained_block|].
  apply self_contained_app; [apply self_contained_paintIntro|].
  apply self_contained_app;
    [apply self_contained_paintCollage|apply self_contained_paintFinalFade].
Qed.

(** ** Frames leave a settled context settled *)

Lemma settled_state (cx cx' : Context2D) :
  state cx' = state cx -> settled cx -> settled cx'.
Proof. unfold settled. intros ->. auto. Qed.

Lemma keeps_settled_nil : keeps_settled [].
Proof. intros cx _. reflexivity. Qed.

Lemma keeps_settled_app (l1 l2 : list Cmd) :
  keeps_settled l1 -> keeps_settled l2 -> keeps_settled (l1 ++ l2).
Proof.
  intros H1 H2 cx Hs. rewrite exec_app.
  rewrite H2; [now apply H1|].
  apply (settled_state cx (exec l1 cx) (H1 cx Hs) Hs).
Qed.

Lemma keeps_settled_if (cnd : bool) (l1 l2 : list Cmd) :
  keeps_settled l1 -> keeps_settled l2 ->
  keeps_settled (if cnd then l1 else l2).
Proof. destruct cnd; auto. Qed.

(** A block that restores what it changes, or only sets the fill style to
    black and the opacity to 1. *)
Ltac keeps_settled_block :=
  let cx := fresh "cx" in
  let F := fresh "F" in
  let A := fresh "A" in
  intros cx [F A]; unfold exec;
  cbn [fold_left exec1 paint with_state painted state path stack];
  try reflexivity;
  destruct cx as [[fs ga ft ta cr] pth stk ptd];
  cbn [state fillStyle globalAlpha font textAlign clipRegion] in *;
  subst; reflexivity.

Lemma keeps_settled_drawPanel (media : SlotId) (index xOff yOff : Q)
    (scale : num) (dims : Dims) :
  keeps_settled (drawPanel media index xOff yOff scale dims).
Proof. unfold drawPanel. keeps_settled_block. Qed.

Lemma keeps_settled_paintIntro (tm : TimingConfig) (dimsA : Dims) (t : Q) :
  keeps_settled (paintIntro tm dimsA t).
Proof.
  unfold paintIntro. apply keeps_settled_if; [|apply keeps_settled_nil].
  keeps_settled_block.
Qed.

Lemma keeps_settled_paintEntry (tm : TimingConfig) (sl : Slots)
    (dimsB dimsC dimsD : Dims) (t : Q) :
  keeps_settled (paintEntry tm sl dimsB dimsC dimsD t).
Proof.
  unfold paintEntry.
  repeat (apply keeps_settled_app; [apply keeps_settled_drawPanel|]).
  unfold entryMasks. keeps_settled_block.
Qed.

Lemma keeps_settled_paintBounce (sin : Q -> Q) (PI : Q) (tm : TimingConfig)
    (sl : Slots) (anim : AnimationConfig) (dimsB dimsC dimsD : Dims) (t : Q) :
  keeps_settled (paintBounce sin PI tm sl anim dimsB dimsC dimsD t).
Proof.
  unfold paintBounce.
  repeat (apply keeps_settled_app; [apply keeps_settled_drawPanel|]).
  apply keeps_settled_drawPanel.
Qed.

Lemma keeps_settled_paintOverlay (tm : TimingConfig) (typo : TypographyConfig)
    (t : Q) :
  keeps_settled (paintOverlay tm typo t).
Proof.
  unfold paintOverlay. apply keeps_settled_if; [|apply keeps_settled_nil].
  intros cx _. cbv zeta. rewrite !exec_app.
  match goal with
  | |- context [map (fun li => FillText (snd li) ?x (@?y li)) ?ls] =>
      rewrite !(@exec_FillText_map (nat * string) (fun li => snd li)
                  (fun _ => x) y ls)
  end.
  reflexivity.
Qed.

Lemma keeps_settled_paintFrame (sin : Q -> Q) (PI : Q) (tm : TimingConfig)
    (sl : Slots) (typo : TypographyConfig) (anim : AnimationConfig)
    (dimsA dimsB dimsC dimsD : Dims) (t : Q) :
  keeps_settled (paintFrame sin PI tm sl typo anim dimsA dimsB dimsC dimsD t).
Proof.
  unfold paintFrame.
  apply keeps_settled_app; [keeps_settled_block|].
  apply keeps_settled_app; [apply keeps_settled_paintIntro|].
  apply keeps_settled_app.
  - unfold paintCollage. apply keeps_settled_if; [|apply keeps_settled_nil].
    apply keeps_settled_app; [keeps_settled_block|].
    apply keeps_settled_app; [|apply keeps_settled_paintOverlay].
    apply keeps_settled_if;
      [apply keeps_settled_paintEntry|apply keeps_settled_paintBounce].
  - unfold paintFinalFade. apply keeps_settled_if; [|apply keeps_settled_nil].
    keeps_settled_block.
Qed.

(** ** What the loop hands to the encoder *)

Section FrameSequence.

Variable sin : Q -> Q.
Variable PI : Q.
Variable host : Host.
Variable st : AppState.
Variables dimsA dimsB dimsC dimsD : Dims.
Variable cx0 : Context2D.
Hypothesis cx0_settled : settled cx0.

Let step := frameStep sin PI host st dimsA dimsB dimsC dimsD.
Let loop := frameLoop sin PI host st dimsA dimsB dimsC dimsD.
Let rendered := renderedFrame sin PI st dimsA dimsB dimsC dimsD cx0.

(** An iteration either throws and submits nothing, or submits the frame
    that belongs to its number; it leaves the drawing state as it was. *)
Lemma frameStep_frame (p : Pipeline) (frame : nat) :
  state (ctx p) = state cx0 ->
  match step p frame with
  | Finished p' =>
      stopRequestedAt host frame = false /\
      encodeFault host frame = None /\
      submitted p' = submitted p ++ [rendered frame] /\
      state (ctx p') = state cx0
  | Thrown msg p' =>
      submitted p' = submitted p /\
      ((stopRequestedAt host frame = true /\ msg = Some stopMessage) \/
       (stopRequestedAt host frame = false /\ msg <> None /\
        encodeFault host frame = msg))
  end.
Proof.
  intro Hst. unfold step, frameStep.
  destruct (stopRequestedAt host frame) eqn:Hs.
  - split; [reflexivity|]. left. split; reflexivity.
  - destruct (encodeFault host frame) as [msg|] eqn:He.
    + cbn [submitted]. split; [reflexivity|]. right.
      split; [reflexivity|]. split; [discriminate|reflexivity].
    + cbn [submitted ctx]. split; [reflexivity|]. split; [reflexivity|].
      set (cmds := paintFrame sin PI (timing st) (slots st) (typography st)
                     (animation st) dimsA dimsB dimsC dimsD
                     (frameTime (quality st) frame)).
      assert (Hb : state (begin_frame (ctx p)) = state (begin_frame cx0))
        by exact Hst.
      split.
      * f_equal. f_equal. unfold rendered, renderedFrame. f_equal.
        fold cmds.
        destruct (@self_contained_paintFrame sin PI (timing st) (slots st)
                    (typography st) (animation st) dimsA dimsB dimsC dimsD
                    (frameTime (quality st) frame)
                    (begin_frame (ctx p)) (begin_frame cx0) Hb)
          as (ps & A & B & _).
        fold cmds in A, B. rewrite A, B. reflexivity.
      * assert (Hset : settled (begin_frame (ctx p))).
        { apply (settled_state cx0 (begin_frame (ctx p))); [exact Hst|exact cx0_settled]. }
        pose proof (@keeps_settled_paintFrame sin PI (timing st) (slots st)
                      (typography st) (animation st) dimsA dimsB dimsC dimsD
                      (frameTime (quality st) frame) _ Hset) as K.
        fold cmds in K. rewrite K. exact Hst.
Qed.

(** The frames submitted by the loop are, in order and with no gap and no
    repetition, the frames that belong to the iterations it ran; it stops
    early only at an iteration that saw the stop flag or whose encoding
    failed. *)
Lemma frameLoop_frames (n : nat) :
  forall (frame : nat) (p : Pipeline),
    state (ctx p) = state cx0 ->
    match loop n frame p with
    | Finished p' =>
        submitted p' = submitted p ++ map rendered (seq frame n) /\
        (forall j, (j < n)%nat ->
                   stopRequestedAt host (frame + j) = false /\
                   encodeFault host (frame + j) = None)
    | Thrown msg p' =>
        exists j, (j < n)%nat /\
          submitted p' = submitted p ++ map rendered (seq frame j) /\
          (forall i, (i < j)%nat ->
                     stopRequestedAt host (frame + i) = false /\
                     encodeFault host (frame + i) = None) /\
          ((stopRequestedAt host (frame + j) = true /\ msg = Some stopMessage) \/
           (stopRequestedAt host (frame + j) = false /\ msg <> None /\
            encodeFault host (frame + j) = msg))
    end.
Proof.
  induction n as [|n IH]; intros frame p Hst.
  - cbn. rewrite app_nil_r. split; [reflexivity|]. intros j Hj. lia.
  - unfold loop. cbn [frameLoop]. fold step. fold loop.
    pose proof (@frameStep_frame p frame Hst) as Hstep.
    destruct (step p frame) as [p1|msg p1].
    + destruct Hstep as (Hs & He & Hsub & Hst1).
      specialize (IH (S frame) p1 Hst1).
      destruct (loop n (S frame) p1) as [p'|msg p'].
      * destruct IH as (Hsub' & Hq). split.
        -- rewrite Hsub', Hsub, <- app_assoc. reflexivity.
        -- intros j Hj. destruct j as [|j].
           ++ rewrite Nat.add_0_r. now split.
           ++ replace (frame + S j)%nat with (S frame + j)%nat by lia.
              apply Hq. lia.
      * destruct IH as (j & Hj & Hsub' & Hq & Hend).
        exists (S j). split; [lia|]. split; [|split].
        -- rewrite Hsub', Hsub, <- app_assoc. reflexivity.
        -- intros i Hi. destruct i as [|i].
           ++ rewrite Nat.add_0_r. now split.
           ++ replace (frame + S i)%nat with (S frame + i)%nat by lia.
              apply Hq. lia.
        -- replace (frame + S j)%nat with (S frame + j)%nat by lia.
           exact Hend.
    + destruct Hstep as (Hsub & Hend).
      exists 0%nat. split; [lia|]. split; [|split].
      * cbn. now rewrite app_nil_r.
      * intros i Hi. lia.
      * rewrite Nat.add_0_r. exact Hend.
Qed.

End FrameSequence.

Lemma nth_error_map_seq (A : Type) (f : nat -> A) (n i : nat) (x : A) :
  nth_error (map f (seq 0 n)) i = Some x -> (i < n)%nat /\ x = f i.
Proof.
  rewrite nth_error_map, nth_error_seq.
  destruct (i <? n)%nat eqn:E; [|discriminate].
  apply Nat.ltb_lt in E. simpl. intro H. injection H as <-. now split.
Qed.

Lemma timestamp_increasing (q : Quality) (i j : nat) :
  (i < j)%nat ->
  (of_nat i * 1000000) / FPS q < (of_nat j * 1000000) / FPS q.
Proof.
  intro H.
  assert (of_nat i < of_nat j) by (unfold of_nat; rewrite <- Zlt_Qlt; lia).
  assert (0 < FPS q) by (destruct q; reflexivity).
  apply Qlt_shift_div_l; [assumption|].
  assert (of_nat i * 1000000 / FPS q * FPS q == of_nat i * 1000000) as ->
    by (field; lra).
  lra.
Qed.

Lemma startRecording_run (sin : Q -> Q) (PI : Q) (host : Host)
    (st : AppState) (r : RenderState) (els : MediaElements) (cx : Context2D) :
  hasCanvas host = true ->
  hasVideoEncoder host = true ->
  loaded host = Some els ->
  context host = Some cx ->
  startRecording sin PI host st r =
  let r1 := {| renderStatus := rendering; renderProgress := Fin 0;
               renderError := None; recordedUrl := None;
               isPlaying := true;
               lastRecordedQuality := Some (quality st) |} in
  match runFrames sin PI host st
          (getMediaDims (mediaA els)) (getMediaDims (mediaB els))
          (getMediaDims (mediaC els)) (getMediaDims (mediaD els))
          {| app := r1; media := els; ctx := cx; submitted := [] |} with
  | Finished p =>
      {| final := {| renderStatus := completed;
                     renderProgress := renderProgress (app p);
                     renderError := renderError (app p);
                     recordedUrl := Some (submitted p);
                     isPlaying := false;
                     lastRecordedQuality := lastRecordedQuality (app p) |};
         elements := Some (releaseAll (media p));
         videoEncoder := Some closed;
         encoded := submitted p |}
  | Thrown message p =>
      {| final := handleError (app p) message;
         elements := Some (releaseAll (media p));
         videoEncoder := Some closed;
         encoded := submitted p |}
  end.
Proof.
  intros H1 H2 H3 H4. unfold startRecording.
  rewrite H1, H2, H3, H4. reflexivity.
Qed.

Lemma encoded_prefix (sin : Q -> Q) (PI : Q) (host : Host)
    (st : AppState) (r : RenderState) (els : MediaElements) (cx : Context2D) :
  hasCanvas host = true ->
  hasVideoEncoder host = true ->
  loaded host = Some els ->
  context host = Some cx ->
  settled cx ->
  exists n, (Z.of_nat n <= Z.max 0 (totalFrames (timing st) (quality st) + 1))%Z /\
    encoded (startRecording sin PI host st r) =
    map (renderedFrame sin PI st
           (getMediaDims (mediaA els)) (getMediaDims (mediaB els))
           (getMediaDims (mediaC els)) (getMediaDims (mediaD els)) cx)
        (seq 0 n).
Proof.
  intros Hcanvas Henc Hload Hctx Hset.
  rewrite (startRecording_run sin PI host st r els cx Hcanvas Henc Hload Hctx).
  cbv zeta. unfold runFrames.
  remember (Z.to_nat (totalFrames (timing st) (quality st) + 1)) as N eqn:HN.
  pose proof (frameLoop_frames sin PI host st
                (getMediaDims (mediaA els)) (getMediaDims (mediaB els))
                (getMediaDims (mediaC els)) (getMediaDims (mediaD els))
                cx Hset N 0%nat
                (Build_Pipeline
                   (Build_RenderState rendering (Fin 0) None None true
                      (Some (quality st))) els cx [])
                eq_refl) as HL.
  match type of HL with
  | match ?L with _ => _ end => destruct L as [p'|msg p']
  end.
  - destruct HL as [Hsub _]. exists N. split; [lia|].
    cbn [encoded]. rewrite Hsub. apply app_nil_l.
  - destruct HL as (j & Hj & Hsub & _). exists j. split; [lia|].
    cbn [encoded]. rewrite Hsub. apply app_nil_l.
Qed.

(** On a canvas whose context is settled, whatever ends the call, the
    frames given to the encoder are the first frames of one fixed
    sequence, in order, each once: frame [i] is stamped
    [i * 1000000 / FPS] microseconds, is a key frame exactly when 60
    divides [i], and shows what [paintFrame] paints at [t = i / FPS] from
    the initial drawing state, whatever was painted before.  Time stamps
    increase strictly, and there are never more than [totalFrames + 1]
    frames. *)
Theorem encoded_frames_in_order (sin : Q -> Q) (PI : Q) (host : Host)
    (st : AppState) (r : RenderState) (els : MediaElements) (cx : Context2D) :
  hasCanvas host = true ->
  hasVideoEncoder host = true ->
  loaded host = Some els ->
  context host = Some cx ->
  settled cx ->
  let res := startRecording sin PI host st r in
  (Z.of_nat (List.length (encoded res))
     <= Z.max 0 (totalFrames (timing st) (quality st) + 1))%Z /\
  (forall i f, nth_error (encoded res) i = Some f ->
      timestamp f = (of_nat i * 1000000) / FPS (quality st) /\
      keyFrame f = (Nat.modulo i 60 =? 0)%nat /\
      picture f =
        painted
          (exec (paintFrame sin PI (timing st) (slots st) (typography st)
                   (animation st)
                   (getMediaDims (mediaA els)) (getMediaDims (mediaB els))
                   (getMediaDims (mediaC els)) (getMediaDims (mediaD els))
                   (frameTime (quality st) i))
                (begin_frame cx))) /\
  (forall i j f g, (i < j)%nat ->
      nth_error (encoded res) i = Some f ->
      nth_error (encoded res) j = Some g ->
      timestamp f < timestamp g).
Proof.
  intros Hcanvas Henc Hload Hctx Hset res.
  destruct (encoded_prefix sin PI host st r els cx Hcanvas Henc Hload Hctx Hset)
    as (n & Hn & Hseq).
  subst res. rewrite Hseq.
  split; [|split].
  - rewrite length_map, length_seq. exact Hn.
  - intros i f Hf. apply nth_error_map_seq in Hf. destruct Hf as [_ ->].
    repeat split.
  - intros i j f g Hij Hf Hg.
    apply nth_error_map_seq in Hf. destruct Hf as [_ ->].
    apply nth_error_map_seq in Hg. destruct Hg as [_ ->].
    apply timestamp_increasing. exact Hij.
Qed.

Lemma encoded_frames_in_order_witness :
  let res := startRecording (fun x => x) 3 (stopping_host 3)
               (sample_state scenario_timing) initial_render_state in
  settled fresh_context /\
  (forall i j f g, (i < j)%nat ->
      nth_error (encoded res) i = Some f ->
      nth_error (encoded res) j = Some g ->
      timestamp f < timestamp g).
Proof.
  cbv zeta. split; [split; reflexivity|].
  apply (encoded_frames_in_order (fun x => x) 3 (stopping_host 3)
           (sample_state scenario_timing) initial_render_state
           sample_media fresh_context);
    try reflexivity. split; reflexivity.
Defined.

(** ** How a call can end *)

Section Outcomes.

Variable sin : Q -> Q.
Variable PI : Q.
Variable host : Host.
Variable st : AppState.
Variables dimsA dimsB dimsC dimsD : Dims.

Let step := frameStep sin PI host st dimsA dimsB dimsC dimsD.
Let loop := frameLoop sin PI host st dimsA dimsB dimsC dimsD.



(** A fault while frame [k] is encoded, with no stop request up to then,
    ends the loop there with that fault. *)
Lemma frameLoop_fault (k : nat) (msg : string) :
  forall (n frame : nat) (p : Pipeline),
    (k < n)%nat ->
    (forall j, (j < k)%nat ->
               stopRequestedAt host (frame + j) = false /\
               encodeFault host (frame + j) = None) ->
    stopRequestedAt host (frame + k) = false ->
    encodeFault host (frame + k) = Some msg ->
    exists p', loop n frame p = Thrown (Some msg) p' /\
               progress_only (app p) (app p') /\
               List.length (submitted p') = (List.length (submitted p) + k)%nat.
Proof.
  induction k as [|k IH]; intros n frame p Hn Hbefore Hstop Hfault.
  - destruct n as [|n]; [lia|].
    rewrite Nat.add_0_r in Hstop, Hfault.
    unfold loop. cbn [frameLoop]. unfold frameStep.
    rewrite Hstop, Hfault. eexists. split; [reflexivity|].
    cbn [app submitted]. split; [|lia].
    destruct (reportsProgress _ _); repeat split.
  - destruct n as [|n]; [lia|].
    destruct (Hbefore 0%nat ltac:(lia)) as [Hs He].
    rewrite Nat.add_0_r in Hs, He.
    destruct (@frameStep_ok sin PI host st dimsA dimsB dimsC dimsD p frame Hs He)
      as (p1 & Hstep & Hprog & Hlen & _).
    destruct (IH n (S frame) p1) as (p' & Hloop & Hprog' & Hlen').
    + lia.
    + intros j Hj. replace (S frame + j)%nat with (frame + S j)%nat by lia.
      apply Hbefore. lia.
    + replace (S frame + k)%nat with (frame + S k)%nat by lia. exact Hstop.
    + replace (S frame + k)%nat with (frame + S k)%nat by lia. exact Hfault.
    + exists p'. unfold loop. cbn [frameLoop]. rewrite Hstep.
      fold loop. rewrite Hloop.
      split; [reflexivity|]. split.
      * eapply progress_only_trans; eassumption.
      * lia.
Qed.

End Outcomes.



(** A fault while frame [k <= totalFrames] is encoded, with no stop
    request seen up to then and no earlier fault, ends the call in error
    with the generic message (the fault's own text is not shown), no
    recording, [isPlaying] off, the encoder closed, the [k] frames before
    the fault submitted and every video element released. *)
Theorem startRecording_encode_fault (sin : Q -> Q) (PI : Q) (host : Host)
    (st : AppState) (r : RenderState) (els : MediaElements) (cx : Context2D)
    (k : nat) (msg : string) :
  hasCanvas host = true ->
  hasVideoEncoder host = true ->
  loaded host = Some els ->
  context host = Some cx ->
  (Z.of_nat k <= totalFrames (timing st) (quality st))%Z ->
  (forall j, (j < k)%nat ->
             stopRequestedAt host j = false /\ encodeFault host j = None) ->
  stopRequestedAt host k = false ->
  encodeFault host k = Some msg ->
  String.eqb msg stopMessage = false ->
  renderStatus (final (startRecording sin PI host st r)) = error /\
  renderError (final (startRecording sin PI host st r))
    = Some "Recording failed. Check your assets and try again."%string /\
  recordedUrl (final (startRecording sin PI host st r)) = None /\
  isPlaying (final (startRecording sin PI host st r)) = false /\
  videoEncoder (startRecording sin PI host st r) = Some closed /\
  List.length (encoded (startRecording sin PI host st r)) = k /\
  exists m, elements (startRecording sin PI host st r) = Some m /\
            released (mediaA m) /\ released (mediaB m) /\
            released (mediaC m) /\ released (mediaD m).
Proof.
  intros Hcanvas Henc Hload Hctx Hk Hbefore Hstop Hfault Hmsg.
  rewrite (startRecording_run sin PI host st r els cx Hcanvas Henc Hload Hctx).
  cbv zeta. unfold runFrames.
  remember (Z.to_nat (totalFrames (timing st) (quality st) + 1)) as N eqn:HN.
  destruct (frameLoop_fault sin PI host st
              (getMediaDims (mediaA els)) (getMediaDims (mediaB els))
              (getMediaDims (mediaC els)) (getMediaDims (mediaD els))
              k msg N 0%nat
              (Build_Pipeline
                 (Build_RenderState rendering (Fin 0) None None true
                    (Some (quality st))) els cx []))
    as (p' & Hloop & (P1 & P2 & P3 & P4 & P5) & Hlen).
  - lia.
  - intros j Hj. now apply Hbefore.
  - exact Hstop.
  - exact Hfault.
  - rewrite Hloop. cbn [final elements videoEncoder encoded].
    unfold handleError. rewrite Hmsg.
    cbn [renderStatus renderError recordedUrl isPlaying].
    rewrite P3. do 5 (split; [reflexivity|]).
    split; [rewrite Hlen; reflexivity|].
    exists (releaseAll (media p')). split; [reflexivity|].
    unfold releaseAll. cbn [mediaA mediaB mediaC mediaD].
    repeat split; apply release_released.
Qed.

Lemma startRecording_encode_fault_witness :
  (Z.of_nat 2 <= totalFrames scenario_timing standard)%Z /\
  encodeFault (faulting_host 2) 2 = Some "EncodingError"%string /\
  renderStatus (final (startRecording (fun x => x) 3 (faulting_host 2)
                         (sample_state scenario_timing) initial_render_state))
    = error /\
  List.length (encoded (startRecording (fun x => x) 3 (faulting_host 2)
                          (sample_state scenario_timing) initial_render_state))
    = 2%nat.
Proof.
  split; [vm_compute; discriminate|]. split; [reflexivity|].
  destruct (startRecording_encode_fault (fun x => x) 3 (faulting_host 2)
              (sample_state scenario_timing) initial_render_state
              sample_media fresh_context 2 "EncodingError"%string)
    as (A & _ & _ & _ & _ & L & _).
  - reflexivity.
  - reflexivity.
  - reflexivity.
  - reflexivity.
  - vm_compute; discriminate.
  - intros j Hj. split; [reflexivity|].
    change (encodeFault (faulting_host 2) j)
      with (if (j =? 2)%nat then Some "EncodingError"%string else None).
    destruct (Nat.eqb_spec j 2); [lia|reflexivity].
  - reflexivity.
  - reflexivity.
  - reflexivity.
  - split; [exact A|exact L].
Defined.

(** ** Length of the output *)








(** ** Synchronizing *)


Lemma seekSlot_same_source (el : Media) (slot : MediaSlotData) (elapsed : num) :
  same_source el (seekSlot el slot elapsed).
Proof.
  unfold seekSlot, same_source.
  destruct (type slot); destruct el as [i|v];
    try (unfold seekVideo; destruct (Math_abs _ <? _)%num; cbn [fst]);
    (split; [reflexivity|repeat split; reflexivity]).
Qed.

(** The synchronization of one frame never changes what a media element
    is (kind, natural size, duration, source); it leaves still images
    alone; it does not touch slot [a] once the intro has faded
    ([t >= t1 + t2]) nor the panels before the fade starts ([t < t1]). *)
Theorem syncMedia_touches_only_visible_videos (st : AppState) (t : Q)
    (m : MediaElements) :
  let m' := syncMedia st t m in
  (same_source (mediaA m) (mediaA m') /\ same_source (mediaB m) (mediaB m') /\
   same_source (mediaC m) (mediaC m') /\ same_source (mediaD m) (mediaD m')) /\
  (type (a (slots st)) = image -> mediaA m' = mediaA m) /\
  (type (b (slots st)) = image -> mediaB m' = mediaB m) /\
  (type (c (slots st)) = image -> mediaC m' = mediaC m) /\
  (type (d (slots st)) = image -> mediaD m' = mediaD m) /\
  (t1 (timing st) + t2 (timing st) <= t -> mediaA m' = mediaA m) /\
  (t < t1 (timing st) ->
   mediaB m' = mediaB m /\ mediaC m' = mediaC m /\ mediaD m' = mediaD m).
Proof.
  cbv zeta.
  assert (Hrefl : forall el, same_source el el).
  { intros [i|v]; split; try reflexivity. repeat split. }
  assert (Himg : forall el slot e, type slot = image -> seekSlot el slot e = el).
  { intros el slot e H. unfold seekSlot. rewrite H. reflexivity. }
  unfold syncMedia. rewrite add_Fin.
  set (A := if (Fin t <? Fin (t1 (timing st) + t2 (timing st)))%num
            then seekSlot (mediaA m) (a (slots st)) (Fin t) else mediaA m).
  assert (HA : same_source (mediaA m) A).
  { unfold A. destruct (Fin t <? _)%num;
      [apply seekSlot_same_source|apply Hrefl]. }
  assert (HAimg : type (a (slots st)) = image -> A = mediaA m).
  { intro H. unfold A. destruct (Fin t <? _)%num; [now apply Himg|reflexivity]. }
  assert (HAlate : t1 (timing st) + t2 (timing st) <= t -> A = mediaA m).
  { intro H. unfold A.
    assert ((Fin t <? Fin (t1 (timing st) + t2 (timing st)))%num = false) as ->
      by (now apply lt_Fin_false).
    reflexivity. }
  destruct (Fin t >=? Fin (t1 (timing st)))%num eqn:EB;
    cbn [mediaA mediaB mediaC mediaD].
  - apply ge_Fin in EB.
    split; [split; [exact HA|split; [|split]]; apply seekSlot_same_source|].
    split; [exact HAimg|].
    split; [intro H; now apply Himg|].
    split; [intro H; now apply Himg|].
    split; [intro H; now apply Himg|].
    split; [exact HAlate|]. intro H. lra.
  - split; [split; [exact HA|split; [|split]]; apply Hrefl|].
    split; [exact HAimg|].
    split; [reflexivity|]. split; [reflexivity|]. split; [reflexivity|].
    split; [exact HAlate|]. intro H. repeat split.
Qed.

(** [loadMedia] resolves with a video only when its duration passes the
    readiness test; the duration is then not [NaN], not [+Infinity] and
    not 0, so for such a video and the slot data the renderer receives (a
    finite or missing [endTime]) the 60-second fallback of [seekVideo] is
    never taken: the effective end is the given [endTime], or the
    duration when [endTime] is missing or 0. *)
Theorem loaded_video_never_uses_fallback (dur s : num) (endT : option Q) :
  onReady_resolves dur = true ->
  (dur <> NaN /\ dur <> PInf /\ ~ dur =n= Fin 0) /\
  effectiveEndTime dur s (option_map Fin endT) =
    match endT with
    | Some x => if Qeq_bool x 0 then dur else Fin x
    | None => dur
    end.
Proof.
  unfold onReady_resolves. intro H.
  apply andb_prop in H. destruct H as [H H3].
  apply andb_prop in H. destruct H as [H1 H2].
  destruct dur as [q| | |]; try discriminate.
  - split.
    + split; [discriminate|]. split; [discriminate|].
      cbn [num_eq]. cbn [truthy] in H1. apply negb_true_iff in H1.
      now apply Qeq_bool_false in H1.
    + unfold effectiveEndTime. destruct endT as [x|]; cbn [option_map truthy].
      * destruct (Qeq_bool x 0); reflexivity.
      * reflexivity.
  - split.
    + split; [discriminate|]. split; [discriminate|]. cbn [num_eq]. tauto.
    + unfold effectiveEndTime. destruct endT as [x|]; cbn [option_map truthy].
      * destruct (Qeq_bool x 0); reflexivity.
      * reflexivity.
Qed.

Lemma loaded_video_never_uses_fallback_witness :
  onReady_resolves (Fin 20) = true /\
  effectiveEndTime (Fin 20) (Fin 5) (option_map Fin (Some 0)) = Fin 20.
Proof.
  split; [reflexivity|].
  destruct (loaded_video_never_uses_fallback (Fin 20) (Fin 5) (Some 0) eq_refl)
    as [_ H].
  exact H.
Defined.

(** ** Quality changes *)

(** Starting with no change pending: choosing a quality never touches an
    existing recording or the quality it was made with; once the choice
    is confirmed the quality is the chosen one, and if that was a change
    no recording is left; choosing the current quality changes nothing.
    The rest of the configuration is never touched. *)
Theorem quality_change_protocol (q : Quality) (c : Component) :
  pendingQuality c = None ->
  let c1 := handleUpdateQuality q c in
  let c2 := confirmQualityChange c1 in
  (recordedUrl (render c) <> None ->
   quality (appState c1) = quality (appState c) /\ render c1 = render c) /\
  quality (appState c2) = q /\
  (quality (appState c) <> q -> recordedUrl (render c2) = None) /\
  (quality (appState c) = q -> c2 = c) /\
  pendingQuality c2 = None /\
  slots (appState c2) = slots (appState c) /\
  timing (appState c2) = timing (appState c) /\
  typography (appState c2) = typography (appState c) /\
  animation (appState c2) = animation (appState c).
Proof.
  intros Hp. cbv zeta. unfold handleUpdateQuality.
  destruct c as [[sl tm ty an q0] r pq]. cbn [pendingQuality] in Hp. subst pq.
  cbn [appState render quality pendingQuality].
  destruct (Quality_eqb q0 q) eqn:E.
  - assert (q0 = q) by (destruct q0, q; try discriminate; reflexivity). subst q0.
    cbn. repeat split; try reflexivity; try tauto.
  - assert (q0 <> q) by (destruct q0, q; try discriminate; congruence).
    destruct r as [rs rp re [u|] ip lq]; cbn; repeat split;
      try reflexivity; try tauto; try congruence.
Qed.

Lemma quality_change_protocol_witness :
  let c := {| appState := sample_state scenario_timing;
              render := {| renderStatus := completed; renderProgress := Fin 100;
                           renderError := None; recordedUrl := Some [];
                           isPlaying := false;
                           lastRecordedQuality := Some standard |};
              pendingQuality := None |} in
  pendingQuality c = None /\
  quality (appState (handleUpdateQuality high c)) = standard /\
  quality (appState (confirmQualityChange (handleUpdateQuality high c))) = high /\
  recordedUrl (render (confirmQualityChange (handleUpdateQuality high c))) = None.
Proof.
  cbv zeta. split; [reflexivity|].
  match goal with
  | |- context [handleUpdateQuality high ?c] =>
      destruct (quality_change_protocol high c eq_refl)
        as (A & B & C & _)
  end.
  split; [apply A; discriminate|]. split; [exact B|].
  apply C. discriminate.
Defined.

(** ** Slot updates *)

Lemma get_set_slot (sl : Slots) (id id' : SlotId) (v : MediaSlotData) :
  get_slot (set_slot sl id v) id' = if match id, id' with
                                       | SlotA, SlotA | SlotB, SlotB
                                       | SlotC, SlotC | SlotD, SlotD => true
                                       | _, _ => false
                                       end
                                    then v else get_slot sl id'.
Proof. destruct id, id'; reflexivity. Qed.

(** Updating a slot writes the given fields of that slot and nothing
    else: the other fields, the other three slots and the rest of the
    configuration stay.  At most one URL is revoked, and only the slot's
    previous URL, only if it is a [blob:] URL, and only when a different,
    non-empty URL replaces it; the URL the slot ends up with is never
    revoked. *)
Theorem handleUpdateSlots_spec (slotId : SlotId) (data : PartialSlot)
    (prev : AppState) :
  let next := fst (handleUpdateSlots slotId data prev) in
  let revoked := snd (handleUpdateSlots slotId data prev) in
  get_slot (slots next) slotId = merge (get_slot (slots prev) slotId) data /\
  (forall id, id <> slotId ->
              get_slot (slots next) id = get_slot (slots prev) id) /\
  (new_url data = None ->
   url (get_slot (slots next) slotId) = url (get_slot (slots prev) slotId)) /\
  (timing next = timing prev /\ typography next = typography prev /\
   animation next = animation prev /\ quality next = quality prev) /\
  (List.length revoked <= 1)%nat /\
  (forall u, In u revoked ->
      url (get_slot (slots prev) slotId) = Some u /\
      String.prefix "blob:" u = true /\
      url (get_slot (slots next) slotId) <> Some u /\
      exists n, new_url data = Some (Some n) /\ n <> u /\ n <> EmptyString).
Proof.
  cbv zeta. unfold handleUpdateSlots. cbn [fst snd slots timing typography
                                           animation quality].
  split; [|split; [|split; [|split; [|split]]]].
  - rewrite get_set_slot. destruct slotId; reflexivity.
  - intros id Hid. rewrite get_set_slot.
    destruct slotId, id; try reflexivity; congruence.
  - intro Hn. rewrite get_set_slot.
    assert (url (merge (get_slot (slots prev) slotId) data)
            = url (get_slot (slots prev) slotId)) as Hm
      by (unfold merge; cbn [url]; rewrite Hn; reflexivity).
    destruct slotId; exact Hm.
  - repeat split.
  - destruct (new_url data) as [[n|]|];
      destruct (url (get_slot (slots prev) slotId)) as [o|];
      try (cbn; lia).
    destruct (_ && _); cbn; lia.
  - intros u Hu.
    assert (Hnew : url (get_slot (set_slot (slots prev) slotId
                              (merge (get_slot (slots prev) slotId) data)) slotId)
                   = or_keep (new_url data) (url (get_slot (slots prev) slotId))).
    { rewrite get_set_slot. destruct slotId; reflexivity. }
    rewrite Hnew.
    destruct (new_url data) as [[n|]|];
      destruct (url (get_slot (slots prev) slotId)) as [o|];
      try contradiction.
    destruct (truthy_url (Some n) && truthy_url (Some o)
              && negb (String.eqb n o) && String.prefix "blob:" o) eqn:E;
      [|contradiction].
    destruct Hu as [<-|[]].
    apply andb_prop in E. destruct E as [E E4].
    apply andb_prop in E. destruct E as [E E3].
    apply andb_prop in E. destruct E as [E1 E2].
    apply negb_true_iff in E3. apply String.eqb_neq in E3.
    cbn [truthy_url] in E1. apply negb_true_iff in E1.
    apply String.eqb_neq in E1.
    split; [reflexivity|]. split; [exact E4|]. cbn [or_keep].
    split; [congruence|]. exists n. repeat split; assumption.
Qed.

(** ** Crop selector *)

Lemma Math_max_Fin_cases (x y : Q) :
  (x <= y /\ Math_max (Fin x) (Fin y) = Fin y) \/
  (y < x /\ Math_max (Fin x) (Fin y) = Fin x).
Proof.
  unfold Math_max, le. destruct (Qle_bool x y) eqn:E.
  - apply Qle_bool_iff in E. now left.
  - apply Qle_bool_false in E. now right.
Qed.

(** The clamped position of the mask, as a rational. *)
Lemma clamp_Fin (x hi : Q) :
  0 <= hi ->
  exists y, Math_max (Fin 0) (Math_min (Fin x) (Fin hi)) = Fin y /\
            0 <= y /\ y <= hi /\
            (x <= 0 -> y == 0) /\ (hi <= x -> y == hi) /\
            (0 <= x -> x <= hi -> y == x).
Proof.
  intro Hhi.
  destruct (Math_min_Fin_cases x hi) as [[L ->]|[L ->]];
    [destruct (Math_max_Fin_cases 0 x) as [[M ->]|[M ->]]
    |destruct (Math_max_Fin_cases 0 hi) as [[M ->]|[M ->]]];
    eexists; (split; [reflexivity|]); repeat split; intros; lra.
Qed.

(** With a mounted selector of positive width: for a medium no wider
    than a panel the pan is reset to 50; otherwise the pan handed to
    [onChange] is a whole number of percent between 0 and 100, 0 when the
    pointer is within the first sixth of the selector, 100 within the
    last sixth, and it does not decrease when the pointer moves right.
    An unmounted selector reports nothing. *)
Theorem handleUpdate_percentage (rect_left rect_width : Q)
    (aspectRatio : option Q) :
  0 < rect_width ->
  let aspect := match aspectRatio with Some r => r | None => 1.777 end in
  (forall clientX, handleUpdate None clientX aspectRatio = None) /\
  (aspect <= 16 # 27 ->
   forall clientX,
     handleUpdate (Some (rect_left, rect_width)) clientX aspectRatio
       = Some (Fin 50)) /\
  (16 # 27 < aspect ->
   (forall clientX, exists k : Z,
       handleUpdate (Some (rect_left, rect_width)) clientX aspectRatio
         = Some (Fin (inject_Z k)) /\
       (0 <= k <= 100)%Z /\
       (clientX <= rect_left + rect_width / 6 -> k = 0%Z) /\
       (rect_left + rect_width * (5 # 6) <= clientX -> k = 100%Z)) /\
   (forall x1 x2 k1 k2, x1 <= x2 ->
       handleUpdate (Some (rect_left, rect_width)) x1 aspectRatio
         = Some (Fin (inject_Z k1)) ->
       handleUpdate (Some (rect_left, rect_width)) x2 aspectRatio
         = Some (Fin (inject_Z k2)) ->
       (k1 <= k2)%Z)).
Proof.
  intros Hw aspect.
  assert (Hpa : ((Fin 1920 / Fin 3) / Fin 1080)%num = Fin ((1920 / 3) / 1080))
    by reflexivity.
  assert (E1 : 1920 / 3 / 1080 == 16 # 27) by reflexivity.
  split; [reflexivity|]. split.
  - intros Ha clientX. unfold handleUpdate. rewrite Hpa. fold aspect.
    assert ((Fin aspect <=? Fin (1920 / 3 / 1080))%num = true) as ->.
    { apply Qle_bool_iff. rewrite E1. exact Ha. }
    reflexivity.
  - intro Ha.
    set (mm := rect_width - rect_width / 3).
    assert (Hmm : 0 < mm).
    { unfold mm. assert (rect_width / 3 == rect_width * (1 # 3)) as -> by field.
      lra. }
    assert (Hmm' : mm == rect_width * (2 # 3)) by (unfold mm; field).
    (* the value computed for a pointer position *)
    assert (Hval : forall clientX,
      exists y,
        handleUpdate (Some (rect_left, rect_width)) clientX aspectRatio
          = Some (Fin (inject_Z (Qfloor (y / mm * 100 + (1 # 2))))) /\
        0 <= y /\ y <= mm /\
        (clientX - rect_left - rect_width / 3 / 2 <= 0 -> y == 0) /\
        (mm <= clientX - rect_left - rect_width / 3 / 2 -> y == mm) /\
        (0 <= clientX - rect_left - rect_width / 3 / 2 ->
         clientX - rect_left - rect_width / 3 / 2 <= mm ->
         y == clientX - rect_left - rect_width / 3 / 2)).
    { intro clientX. unfold handleUpdate. rewrite Hpa. fold aspect.
      assert ((Fin aspect <=? Fin (1920 / 3 / 1080))%num = false) as ->.
      { apply Qle_bool_false. rewrite E1. exact Ha. }
      change (Fin rect_width / Fin 3)%num with (Fin (rect_width / 3)).
      change (Fin (rect_width / 3) / Fin 2)%num
        with (Fin (rect_width / 3 / 2)).
      rewrite !sub_Fin. fold mm.
      destruct (@clamp_Fin (clientX - rect_left - rect_width / 3 / 2) mm)
        as (y & Hy & Hy0 & Hy1 & Hlow & Hhigh & Hmid); [lra|].
      rewrite Hy. rewrite div_Fin by lra. rewrite mul_Fin.
      exists y. split; [reflexivity|]. repeat split; assumption. }
    assert (Hfrac : forall y, 0 <= y -> y <= mm ->
              0 <= y / mm * 100 /\ y / mm * 100 <= 100).
    { intros y Hy0 Hy1.
      assert (0 <= y / mm) by (apply Qle_shift_div_l; lra).
      assert (y / mm <= 1) by (apply Qle_shift_div_r; lra).
      lra. }
    assert (Hsixth : rect_width / 3 / 2 == rect_width / 6) by field.
    split.
    + intro clientX.
      destruct (Hval clientX) as (y & Hv & Hy0 & Hy1 & Hlow & Hhigh & _).
      destruct (Hfrac y Hy0 Hy1) as [Hf0 Hf1].
      exists (Qfloor (y / mm * 100 + (1 # 2))). split; [exact Hv|].
      split; [|split].
      * split.
        -- apply Z.le_trans with (Qfloor 0); [discriminate|].
           apply Qfloor_resp_le. lra.
        -- apply Z.le_trans with (Qfloor (201 # 2)); [|discriminate].
           apply Qfloor_resp_le. lra.
      * intro Hc.
        assert (Hz : y == 0) by (apply Hlow; rewrite Hsixth; lra).
        assert (y / mm * 100 + (1 # 2) == 1 # 2) as ->
          by (rewrite Hz; field; lra).
        reflexivity.
      * intro Hc.
        assert (Hz : y == mm).
        { apply Hhigh. rewrite Hsixth, Hmm'.
          assert (rect_width / 6 == rect_width * (1 # 6)) as -> by field.
          lra. }
        assert (y / mm * 100 + (1 # 2) == 201 # 2) as ->
          by (rewrite Hz; field; lra).
        reflexivity.
    + intros x1 x2 k1 k2 Hx H1 H2.
      destruct (Hval x1) as (y1 & Hv1 & Ha0 & Ha1 & Hl1 & Hh1 & Hm1).
      destruct (Hval x2) as (y2 & Hv2 & Hb0 & Hb1 & Hl2 & Hh2 & Hm2).
      rewrite Hv1 in H1. rewrite Hv2 in H2.
      remember (Qfloor (y1 / mm * 100 + (1 # 2))) as a1 eqn:Ea1.
      remember (Qfloor (y2 / mm * 100 + (1 # 2))) as a2 eqn:Ea2.
      assert (H1' : a1 = k1) by (injection H1; auto).
      assert (H2' : a2 = k2) by (injection H2; auto).
      subst a1 a2.
      assert (Hy : y1 <= y2).
      { set (u1 := x1 - rect_left - rect_width / 3 / 2) in *.
        set (u2 := x2 - rect_left - rect_width / 3 / 2) in *.
        assert (u1 <= u2) by (unfold u1, u2; lra).
        destruct (Qlt_le_dec u1 0) as [A|A].
        - rewrite (Hl1 ltac:(lra)). exact Hb0.
        - destruct (Qlt_le_dec mm u2) as [B|B].
          + rewrite (Hh2 ltac:(lra)). exact Ha1.
          + rewrite (Hm2 ltac:(lra) B).
            rewrite (Hm1 A ltac:(lra)). assumption. }
      assert (Hq : y1 / mm * 100 + (1 # 2) <= y2 / mm * 100 + (1 # 2)).
      { assert (y1 / mm <= y2 / mm).
        { apply Qle_shift_div_l; [exact Hmm|].
          assert (y1 / mm * mm == y1) as -> by (field; lra). exact Hy. }
        lra. }
      apply Qfloor_resp_le in Hq. rewrite H1', H2' in Hq. exact Hq.
Qed.

Lemma handleUpdate_percentage_witness :
  0 < 300 /\
  (forall clientX, handleUpdate None clientX (Some (16 # 9)) = None).
Proof.
  split; [reflexivity|].
  destruct (handleUpdate_percentage 10 300 (Some (16 # 9)) eq_refl) as [A _].
  exact A.
Defined.

(** ** Range of the bounce *)

(** If the host's sine is between 0 and 1 on the first half period, the
    bounce scale is at least 1 and the bounce phase has positive length,
    then at every time every panel is drawn with a scale between 1 and
    [bounceScale]. *)
Theorem panelScale_range (sin : Q -> Q) (PI : Q) (tm : TimingConfig)
    (anim : AnimationConfig) (t : Q) (p : Panel) :
  (forall x, 0 <= x -> x <= 1 -> 0 <= sin (x * PI) /\ sin (x * PI) <= 1) ->
  1 <= bounceScale anim ->
  0 < t4 tm ->
  exists s, panelScale sin PI tm anim t p = Fin s /\
            1 <= s /\ s <= bounceScale anim.
Proof.
  intros Hsin Hbs H4. unfold panelScale.
  destruct (ct tm t <? Fin (t3 tm))%num.
  - exists 1. split; [reflexivity|]. lra.
  - set (bt := t - (t1 tm + t2 tm) - t3 tm - bounceDelay tm p).
    assert (Hd : 0 < t4 tm / 3) by (apply Qlt_shift_div_l; lra).
    destruct (Qlt_le_dec bt 0) as [A|A].
    + rewrite getBounce_outside by (left; exact A).
      exists 1. split; [reflexivity|]. lra.
    + destruct (Qlt_le_dec (t4 tm / 3) bt) as [B|B].
      * rewrite getBounce_outside by (right; exact B).
        exists 1. split; [reflexivity|]. lra.
      * rewrite (getBounce_inside sin PI tm anim H4 A B). fold bt.
        eexists. split; [reflexivity|].
        assert (0 <= bt / (t4 tm / 3)) by (apply Qle_shift_div_l; lra).
        assert (bt / (t4 tm / 3) <= 1) by (apply Qle_shift_div_r; lra).
        destruct (Hsin (bt / (t4 tm / 3))) as [S0 S1]; try assumption.
        set (v := sin (bt / (t4 tm / 3) * PI)) in *.
        nra.
Qed.

Lemma panelScale_range_witness :
  (forall x, 0 <= x -> x <= 1 ->
             0 <= (fun _ : Q => 1 # 2) (x * 3) /\ (fun _ : Q => 1 # 2) (x * 3) <= 1) /\
  1 <= bounceScale sample_animation /\
  0 < t4 scenario_timing /\
  exists s, panelScale (fun _ => 1 # 2) 3 scenario_timing sample_animation
              (7 # 2) PanelC = Fin s /\
            1 <= s /\ s <= bounceScale sample_animation.
Proof.
  assert (Hs : forall x, 0 <= x -> x <= 1 ->
             0 <= (fun _ : Q => 1 # 2) (x * 3) /\ (fun _ : Q => 1 # 2) (x * 3) <= 1).
  { intros x _ _. split; vm_compute; discriminate. }
  split; [exact Hs|]. split; [vm_compute; discriminate|]. split; [reflexivity|].
  apply (panelScale_range (fun _ => 1 # 2) 3 scenario_timing sample_animation
           (7 # 2) PanelC Hs).
  - vm_compute; discriminate.
  - reflexivity.
Defined.

(** ** Witnesses for the range and completion lemmas *)



Lemma startRecording_completes_witness :
  (0 < totalFrames (timing (sample_state scenario_timing))
         (quality (sample_state scenario_timing)))%Z /\
  renderStatus
    (final (startRecording (fun x => x) 3 quiet_host
              (sample_state scenario_timing) initial_render_state))
    = completed.
Proof.
  split; [reflexivity|].
  destruct (startRecording_completes (fun x => x) 3 quiet_host
              (sample_state scenario_timing) initial_render_state
              sample_media fresh_context) as [A _].
  - reflexivity.
  - reflexivity.
  - reflexivity.
  - reflexivity.
  - intro j. split; reflexivity.
  - reflexivity.
  - exact A.
Defined.

(** ** Fades and the reveal only go one way *)

Lemma Math_min_one_mono (x y : Q) :
  x <= y ->
  exists a b, Math_min (Fin x) (Fin 1) = Fin a /\
              Math_min (Fin y) (Fin 1) = Fin b /\ a <= b /\ b <= 1.
Proof.
  intro H.
  destruct (Math_min_Fin_cases x 1) as [[L1 ->]|[L1 ->]];
    destruct (Math_min_Fin_cases y 1) as [[L2 ->]|[L2 ->]];
    do 2 eexists; (split; [reflexivity|]); (split; [reflexivity|]); lra.
Qed.

(** A (possibly infinite) quotient by a non-negative length, capped at 1,
    does not decrease when a positive numerator grows. *)
Lemma capped_quotient_mono (x y len : Q) :
  0 <= len -> 0 < x -> x <= y ->
  exists a b, Math_min (Fin x / Fin len) (Fin 1) = Fin a /\
              Math_min (Fin y / Fin len) (Fin 1) = Fin b /\ a <= b /\ b <= 1.
Proof.
  intros Hlen Hx Hxy. unfold div.
  destruct (Qeq_bool len 0) eqn:Z.
  - assert (Qeq_bool x 0 = false) as -> by (apply Qeq_bool_false; lra).
    assert (Qeq_bool y 0 = false) as -> by (apply Qeq_bool_false; lra).
    assert (Qlt_bool 0 x = true) as -> by (apply Qlt_bool_iff; lra).
    assert (Qlt_bool 0 y = true) as -> by (apply Qlt_bool_iff; lra).
    exists 1, 1. repeat split; lra.
  - apply Qeq_bool_false in Z. apply Math_min_one_mono.
    apply Qle_shift_div_l; [lra|].
    assert (x / len * len == x) as -> by (field; lra). exact Hxy.
Qed.

(** For two times [t <= t'] of one render with non-negative fade lengths:
    while the intro is shown its opacity does not increase; once the
    overlay has started its opacity does not decrease; once the final
    fade has started its opacity does not decrease. *)
Theorem fades_are_monotone (tm : TimingConfig) (t t' : Q) :
  t <= t' ->
  (t' < t1 tm + t2 tm ->
   exists x x', introOpacity tm t = Fin x /\ introOpacity tm t' = Fin x' /\
                x' <= x /\ x <= 1) /\
  (0 <= t5 tm -> 0 < t - (t1 tm + t2 tm) - t3 tm - t4 tm - tHold tm ->
   exists x x', overlayOpacity tm t = Fin x /\ overlayOpacity tm t' = Fin x' /\
                x <= x' /\ x' <= 1) /\
  (0 <= t7 tm -> totalDuration tm - t7 tm < t ->
   exists x x', Math_min (fadeProgress tm t) (Fin 1) = Fin x /\
                Math_min (fadeProgress tm t') (Fin 1) = Fin x' /\
                x <= x' /\ x' <= 1).
Proof.
  intro Htt. split; [|split].
  - intro Hend.
    destruct (@introOpacity_range tm t ltac:(lra)) as (x & Hx & Hx0 & Hx1).
    destruct (@introOpacity_range tm t' Hend) as (x' & Hx' & Hx'0 & Hx'1).
    exists x, x'. split; [exact Hx|]. split; [exact Hx'|]. split; [|exact Hx1].
    unfold introOpacity in Hx, Hx'.
    destruct (Fin t <? Fin (t1 tm))%num eqn:L.
    + injection Hx as <-. exact Hx'1.
    + apply lt_Fin_false in L.
      assert ((Fin t' <? Fin (t1 tm))%num = false) as L'
        by (apply lt_Fin_false; lra).
      rewrite L' in Hx'.
      assert (H2 : 0 < t2 tm) by lra.
      rewrite sub_Fin, div_Fin, sub_Fin in Hx, Hx' by lra.
      assert (Hq : (t - t1 tm) / t2 tm <= (t' - t1 tm) / t2 tm).
      { apply Qle_shift_div_l; [exact H2|].
        assert ((t - t1 tm) / t2 tm * t2 tm == t - t1 tm) as -> by (field; lra).
        lra. }
      destruct (Math_max_Fin_cases 0 (1 - (t - t1 tm) / t2 tm)) as [[M E]|[M E]];
        destruct (Math_max_Fin_cases 0 (1 - (t' - t1 tm) / t2 tm))
          as [[M' E']|[M' E']];
        rewrite E in Hx; rewrite E' in Hx';
        injection Hx as <-; injection Hx' as <-; lra.
  - intros H5 Hot. unfold overlayOpacity, ot. rewrite !ct_Fin, !sub_Fin.
    apply capped_quotient_mono; [exact H5|exact Hot|lra].
  - intros H7 Hs. unfold fadeProgress, fadeOutStartTime. rewrite !sub_Fin.
    apply capped_quotient_mono; [exact H7|lra|lra].
Qed.

Lemma fades_are_monotone_witness :
  2 <= 9 # 4 /\ 9 # 4 < t1 scenario_timing + t2 scenario_timing /\
  exists x x', introOpacity scenario_timing 2 = Fin x /\
               introOpacity scenario_timing (9 # 4) = Fin x' /\
               x' <= x /\ x <= 1.
Proof.
  split; [vm_compute; discriminate|]. split; [reflexivity|].
  destruct (fades_are_monotone scenario_timing 2 (9 # 4)) as [A _].
  - vm_compute; discriminate.
  - apply A. reflexivity.
Defined.


